(** * DeckLinkAVSource: audio-stream mapping, channel planning and routing

    A shallow embedding of [voctocore/lib/sources/decklinkavsource.py].

    Python values are modelled as follows.
    - [str] is [string]; a character is read as a code point below 256.
    - [int] is [Z] (unbounded, as in Python; interpreter limits on the
      length of a literal are not modelled).
    - a [dict] is an association list in insertion order ([Dict]).
    - an exception is a value of [exn]; code that may raise returns
      [exn + A].
    - the calls into the pipeline engine ([build_pipeline],
      [bin.set_state]) are recorded in a trace that is threaded through
      [__init__], [launch_pipeline] and [restart].
    Logging is not modelled. *)

From Stdlib Require Import ZArith List String Ascii Bool Lia DecimalString.
From Stdlib Require DecimalZ.
Import ListNotations.
Open Scope string_scope.
Open Scope Z_scope.

(** ** Exceptions and the error monad *)

Inductive exn : Type :=
| ValueError (literal : string)   (* int(): invalid literal, carries the argument *)
| RuntimeError (message : string).

Definition result (A : Type) : Type := (exn + A)%type.

Definition ret {A} (a : A) : result A := inr a.
Definition raise {A} (e : exn) : result A := inl e.
Definition bind {A B} (m : result A) (k : A -> result B) : result B :=
  match m with
  | inl e => inl e
  | inr a => k a
  end.

Notation "x <- m ;; k" := (bind m (fun x => k))
  (at level 61, m at next level, right associativity).
Notation "' p <- m ;; k" := (bind m (fun x => match x with p => k end))
  (at level 61, p pattern, m at next level, right associativity).

(** ** Python built-ins used by the source *)

Module Py.

Definition code (c : ascii) : Z := Z.of_N (N_of_ascii c).

(** [\d] and the decimal digits of [int()]: below code point 256 these
    are exactly ['0'..'9']. *)
Definition is_digit (c : ascii) : bool :=
  (48 <=? code c) && (code c <=? 57).

Definition digit_value (c : ascii) : Z := code c - 48.

(** White space skipped by [int()] around a literal. *)
Definition is_space (c : ascii) : bool :=
  let n := code c in
  ((9 <=? n) && (n <=? 13)) || (n =? 32) || (n =? 133) || (n =? 160).

Fixpoint lstrip (s : string) : string :=
  match s with
  | String c s' => if is_space c then lstrip s' else s
  | EmptyString => EmptyString
  end.

Fixpoint all_space (s : string) : bool :=
  match s with
  | String c s' => is_space c && all_space s'
  | EmptyString => true
  end.

Fixpoint all_digits (s : string) : bool :=
  match s with
  | String c s' => is_digit c && all_digits s'
  | EmptyString => true
  end.

(** The greedy [\d*]: the longest prefix of digits and what follows. *)
Fixpoint span_digits (s : string) : string * string :=
  match s with
  | String c s' =>
      if is_digit c
      then let (ds, rest) := span_digits s' in (String c ds, rest)
      else (EmptyString, s)
  | EmptyString => (EmptyString, EmptyString)
  end.

(** After a first digit: more digits, each optionally preceded by a
    single underscore.  Returns the value read and the unread rest. *)
Fixpoint int_tail (acc : Z) (s : string) : Z * string :=
  match s with
  | String c s' =>
      if is_digit c then int_tail (acc * 10 + digit_value c) s'
      else if Ascii.eqb c "_"%char then
        match s' with
        | String d s'' =>
            if is_digit d then int_tail (acc * 10 + digit_value d) s''
            else (acc, s)
        | EmptyString => (acc, s)
        end
      else (acc, s)
  | EmptyString => (acc, EmptyString)
  end.

Definition int_unsigned (s : string) : option Z :=
  match s with
  | String c s' =>
      if is_digit c then
        let (v, rest) := int_tail (digit_value c) s' in
        if all_space rest then Some v else None
      else None
  | EmptyString => None
  end.

(** [int(s)] in base 10; [None] stands for the [ValueError]. *)
Definition parse_int (s : string) : option Z :=
  match lstrip s with
  | String c s' =>
      if Ascii.eqb c "+"%char then int_unsigned s'
      else if Ascii.eqb c "-"%char then option_map Z.opp (int_unsigned s')
      else int_unsigned (String c s')
  | EmptyString => None
  end.

Definition int (s : string) : result Z :=
  match parse_int s with
  | Some z => ret z
  | None => raise (ValueError s)
  end.

(** ["{}".format(n)] for an [int]. *)
Definition str (n : Z) : string := NilZero.string_of_int (Z.to_int n).

Fixpoint strip_prefix (p s : string) : option string :=
  match p, s with
  | EmptyString, _ => Some s
  | String a p', String b s' =>
      if Ascii.eqb a b then strip_prefix p' s' else None
  | String _ _, EmptyString => None
  end.

End Py.

(** ** The two regular expressions

    [re.match] anchors at the start of the string only.  In both
    patterns a [\d+] is followed by a character that is not a digit, so
    the greedy longest run of digits is the only candidate and no
    backtracking can succeed where it fails. *)

(** [re.match(r'audiostream\[(\d+)\]', key)]: [group(1)] on a match. *)
Definition re_match_audiostream (key : string) : option string :=
  match Py.strip_prefix "audiostream[" key with
  | Some rest =>
      match Py.span_digits rest with
      | (String d ds, String c _) =>
          if Ascii.eqb c "]"%char then Some (String d ds) else None
      | _ => None
      end
  | None => None
  end.

(** [re.match(r'(\d+)\+(\d+)', mapping)]: [group(1)] and [group(2)]. *)
Definition re_match_pair (mapping : string) : option (string * string) :=
  match Py.span_digits mapping with
  | (String l ls, String c rest) =>
      if Ascii.eqb c "+"%char then
        match Py.span_digits rest with
        | (String r rs, _) => Some (String l ls, String r rs)
        | _ => None
        end
      else None
  | _ => None
  end.

(** ** Python dictionaries

    A [dict] keeps its items in insertion order; assigning to a key that
    is present replaces the value in place and keeps the position. *)

Module Dict.

Definition t (V : Type) : Type := list (Z * V).

Definition empty {V} : t V := [].

Fixpoint set {V} (d : t V) (k : Z) (v : V) : t V :=
  match d with
  | [] => [(k, v)]
  | (k', v') :: d' =>
      if k' =? k then (k', v) :: d' else (k', v') :: set d' k v
  end.

Fixpoint get {V} (d : t V) (k : Z) : option V :=
  match d with
  | [] => None
  | (k', v') :: d' => if k' =? k then Some v' else get d' k
  end.

Definition mem {V} (k : Z) (d : t V) : bool :=
  match get d k with Some _ => true | None => false end.

Definition len {V} (d : t V) : Z := Z.of_nat (List.length d).

Definition items {V} (d : t V) : list (Z * V) := d.

Definition keys {V} (d : t V) : list Z := map fst d.

End Dict.

(** ** The configuration provider

    [lib.config.Config] is not part of this file's source: it is taken
    as a parameter.  A section is the ordered list of its (key, value)
    pairs, [Config.get(section, key)] being the value paired with [key];
    [mix_audiostreams] is [Config.getint('mix', 'audiostreams')]. *)

Module Config.

Record t : Type := {
  sections : list (string * list (string * string));
  mix_audiostreams : Z
}.

Fixpoint assoc {V} (k : string) (l : list (string * V)) : option V :=
  match l with
  | [] => None
  | (k', v) :: l' => if String.eqb k' k then Some v else assoc k l'
  end.

(** [Config[section]], [None] when [section not in Config]. *)
Definition section (c : t) (name : string) : option (list (string * string)) :=
  assoc name (sections c).

(** [Config.get(section, key, fallback=...)]. *)
Definition get (c : t) (sec key fallback : string) : string :=
  match section c sec with
  | Some kvs =>
      match assoc key kvs with
      | Some v => v
      | None => fallback
      end
  | None => fallback
  end.

End Config.

(** ** The launch description

    [launch_pipeline] assembles the text of a GStreamer launch
    description.  White space apart, that text is a sequence of chains,
    each a sequence of nodes linked by [!]; a node is an element with
    its properties, a reference [element.pad] to a pad of a named
    element ([element.] when [pad] is empty), or text spliced in from
    elsewhere. *)

Inductive node : Type :=
| Element (factory : string) (props : list (string * string))
| Pad (element pad : string)
| Verbatim (text : string).

Definition chain : Type := list node.

(** Calls into the pipeline engine, in the order they are made. *)
Inductive call : Type :=
| build_pipeline (pipeline : list chain)
| set_state_NULL.

Definition engine : Type := list call.

Definition M (A : Type) : Type := engine -> result A * engine.

Definition bindM {A B} (m : M A) (k : A -> M B) : M B :=
  fun w =>
    match m w with
    | (inl e, w') => (inl e, w')
    | (inr a, w') => k a w'
    end.

Definition retM {A} (a : A) : M A := fun w => (inr a, w).
Definition lift {A} (r : result A) : M A := fun w => (r, w).
Definition invoke (c : call) : M unit := fun w => (inr tt, List.app w [c]).

Notation "x <<- m ;; k" := (bindM m (fun x => k))
  (at level 61, m at next level, right associativity).

(** ** The source object *)

Record DeckLinkAVSource : Type := {
  name : string;
  has_audio : bool;
  has_video : bool;
  (* AVSource.build_deinterlacer(), defined in the base class *)
  super_deinterlacer : option string;
  device : string;
  aconn : string;
  vconn : string;
  vmode : string;
  vfmt : string;
  audiostream_map : Dict.t string;
  fallback_default : bool;
  required_input_channels : Z
}.

Definition audio_channels (self : DeckLinkAVSource) : Z :=
  if Dict.len (audiostream_map self) =? 0 then 1
  else Dict.len (audiostream_map self).

Definition channels_message (required_input_channels : Z) : string :=
  "Decklink-Devices support up to 16 Channels,you requested "
  ++ Py.str required_input_channels.

Definition _round_decklink_channels (required_input_channels : Z) : result Z :=
  if required_input_channels >? 16 then
    raise (RuntimeError (channels_message required_input_channels))
  else if required_input_channels >? 8 then ret 16
  else if required_input_channels >? 2 then ret 8
  else ret 2.

Definition _parse_audiostream_mapping (mapping : string)
  : result (Z * option Z) :=
  match re_match_pair mapping with
  | Some (g1, g2) =>
      l <- Py.int g1 ;;
      r <- Py.int g2 ;;
      ret (l, Some r)
  | None =>
      l <- Py.int mapping ;;
      ret (l, None)
  end.

(** Truth value of [right] in [if right:]: [None] and [0] are false. *)
Definition truthy (right_ : option Z) : bool :=
  match right_ with
  | Some r => negb (r =? 0)
  | None => false
  end.

(** [left] and [right] are written [left_] and [right_]. *)
Fixpoint required_loop (items : list (Z * string))
  (required_input_channels : Z) : result Z :=
  match items with
  | [] => ret required_input_channels
  | (audiostream, mapping) :: rest =>
      ' (left_, right_) <- _parse_audiostream_mapping mapping ;;
      let required_input_channels :=
        Z.max required_input_channels (left_ + 1) in
      let required_input_channels :=
        match right_ with
        | Some r =>
            if truthy right_
            then Z.max required_input_channels (r + 1)
            else required_input_channels
        | None => required_input_channels
        end in
      required_loop rest required_input_channels
  end.

Definition _calculate_required_input_channels
  (audiostream_map : Dict.t string) : result Z :=
  required_input_channels <- required_loop (Dict.items audiostream_map) 0 ;;
  _round_decklink_channels required_input_channels.

Fixpoint audiostream_map_loop (kvs : list (string * string))
  (audiostream_map : Dict.t string) : result (Dict.t string) :=
  match kvs with
  | [] => ret audiostream_map
  | (key, value) :: rest =>
      match re_match_audiostream key with
      | Some g1 =>
          audiostream <- Py.int g1 ;;
          audiostream_map_loop rest (Dict.set audiostream_map audiostream value)
      | None => audiostream_map_loop rest audiostream_map
      end
  end.

Definition _parse_audiostream_map (cfg : Config.t) (config_section : string)
  : result (Dict.t string) :=
  match Config.section cfg config_section with
  | None => ret Dict.empty
  | Some kvs => audiostream_map_loop kvs Dict.empty
  end.

Definition streams_message (audiostream num_streams : Z) : string :=
  "Mapping-Configuration for Stream 0 to " ++ Py.str audiostream
  ++ " found,but only " ++ Py.str num_streams ++ " enabled".

Fixpoint streams_loop (num_streams : Z) (items : list (Z * string))
  : result unit :=
  match items with
  | [] => ret tt
  | (audiostream, mapping) :: rest =>
      if audiostream >=? num_streams then
        raise (RuntimeError (streams_message audiostream num_streams))
      else streams_loop num_streams rest
  end.

Definition _warn_incorrect_number_of_streams (cfg : Config.t)
  (audiostream_map : Dict.t string) : result unit :=
  let num_streams := Config.mix_audiostreams cfg in
  streams_loop num_streams (Dict.items audiostream_map).

(** ** Assembling the launch description *)

Definition build_deinterlacer (self : DeckLinkAVSource) : string :=
  match super_deinterlacer self with
  | Some (String c d) => String c d ++ " !"
  | _ => ""
  end.

Definition queue (name : string) (audiostream : Z) (side : string) : node :=
  Element "queue"
    [("name", "queue-decklink-audio-" ++ name ++ "-" ++ Py.str audiostream
              ++ "-" ++ side)].

(** The text appended for a mapping with two channels. *)
Definition pair_template (name : string) (audiostream left_ right_ : Z)
  : list chain :=
  [ [Element "interleave" [("name", "i-" ++ name ++ "-" ++ Py.str audiostream)]];
    [Pad ("aout-" ++ name) ("src_" ++ Py.str left_);
     queue name audiostream "left";
     Pad ("i-" ++ name ++ "-" ++ Py.str audiostream) "sink_0"];
    [Pad ("aout-" ++ name) ("src_" ++ Py.str right_);
     queue name audiostream "right";
     Pad ("i-" ++ name ++ "-" ++ Py.str audiostream) "sink_1"] ].

(** The text appended for a mapping with one channel. *)
Definition tee_template (name : string) (audiostream channel : Z)
  : list chain :=
  [ [Element "interleave" [("name", "i-" ++ name ++ "-" ++ Py.str audiostream)]];
    [Pad ("aout-" ++ name) ("src_" ++ Py.str channel);
     Element "tee" [("name", "t-" ++ name ++ "-" ++ Py.str audiostream)]];
    [Pad ("t-" ++ name ++ "-" ++ Py.str audiostream) "";
     queue name audiostream "left";
     Pad ("i-" ++ name ++ "-" ++ Py.str audiostream) "sink_0"];
    [Pad ("t-" ++ name ++ "-" ++ Py.str audiostream) "";
     queue name audiostream "right";
     Pad ("i-" ++ name ++ "-" ++ Py.str audiostream) "sink_1"] ].

(** The loop over [audiostream_map.items()] of [launch_pipeline]. *)
Fixpoint routing_loop (name : string) (items : list (Z * string))
  (pipeline : list chain) : result (list chain) :=
  match items with
  | [] => ret pipeline
  | (audiostream, mapping) :: rest =>
      ' (left_, right_) <- _parse_audiostream_mapping mapping ;;
      match right_ with
      | Some right_ =>
          routing_loop name rest
            (List.app pipeline (pair_template name audiostream left_ right_))
      | None =>
          routing_loop name rest
            (List.app pipeline (tee_template name audiostream left_))
      end
  end.

Definition video_chain (self : DeckLinkAVSource) : chain :=
  Element "decklinkvideosrc"
    [("device-number", device self); ("connection", vconn self);
     ("video-format", vfmt self); ("mode", vmode self)]
  :: (if has_video self then
        [Verbatim (build_deinterlacer self);
         Element "videoconvert" [];
         Element "videoscale" [];
         Element "videorate" [("name", "vout-" ++ name self)]]
      else
        [Element "fakesink" []]).

Definition audio_chain (self : DeckLinkAVSource) : chain :=
  let channels :=
    if required_input_channels self >? 2
    then [("channels", Py.str (required_input_channels self))]
    else [] in
  let source_props :=
    List.app channels
      [("device-number", device self); ("connection", aconn self)] in
  if fallback_default self then
    [Element "decklinkaudiosrc"
       (List.app source_props [("name", "aout-" ++ name self)])]
  else
    [Element "decklinkaudiosrc" source_props;
     Element "deinterleave" [("name", "aout-" ++ name self)]].

(** The value of [pipeline] when [launch_pipeline] hands it over. *)
Definition launch_description (self : DeckLinkAVSource) : result (list chain) :=
  let pipeline := [video_chain self] in
  if has_audio self then
    let pipeline := List.app pipeline [audio_chain self] in
    routing_loop (name self) (Dict.items (audiostream_map self)) pipeline
  else ret pipeline.

Definition launch_pipeline (self : DeckLinkAVSource) : M unit :=
  pipeline <<- lift (launch_description self) ;;
  invoke (build_pipeline pipeline).

Definition restart (self : DeckLinkAVSource) : M unit :=
  _ <<- invoke set_state_NULL ;;
  launch_pipeline self.

Definition port (self : DeckLinkAVSource) : string :=
  "Decklink #" ++ device self.

Definition build_audioport (self : DeckLinkAVSource) (audiostream : Z)
  : option string :=
  if fallback_default self && (audiostream =? 0) then
    Some ("aout-" ++ name self ++ ".")
  else if Dict.mem audiostream (audiostream_map self) then
    Some ("i-" ++ name self ++ "-" ++ Py.str audiostream ++ ".")
  else None.


(** The constructor.  [super().__init__] stores [name], [has_audio] and
    [has_video]; [deinterlacer] is what the base class's
    [build_deinterlacer] returns for this source. *)
Definition __init__ (cfg : Config.t) (deinterlacer : option string)
  (name : string) (has_audio has_video : bool) : M DeckLinkAVSource :=
  let section := "source." ++ name in
  let device := Config.get cfg section "devicenumber" "0" in
  let aconn := Config.get cfg section "audio_connection" "auto" in
  let vconn := Config.get cfg section "video_connection" "auto" in
  let vmode := Config.get cfg section "video_mode" "1080i50" in
  let vfmt := Config.get cfg section "video_format" "auto" in
  audiostream_map <<- lift (_parse_audiostream_map cfg section) ;;
  let fallback_default := Dict.len audiostream_map =? 0 in
  _ <<- lift (_warn_incorrect_number_of_streams cfg audiostream_map) ;;
  required_input_channels <<-
    lift (_calculate_required_input_channels audiostream_map) ;;
  let self :=
    {| name := name; has_audio := has_audio; has_video := has_video;
       super_deinterlacer := deinterlacer;
       device := device; aconn := aconn; vconn := vconn;
       vmode := vmode; vfmt := vfmt;
       audiostream_map := audiostream_map;
       fallback_default := fallback_default;
       required_input_channels := required_input_channels |} in
  _ <<- launch_pipeline self ;;
  retM self.

(** ** Vocabulary of the specification *)

(** What one entry of the stream mapping denotes. *)
Inductive ChannelMapping : Type :=
| Single (channel : Z)
| Pair (left_ right_ : Z).

Definition StreamMapping : Type := list (Z * ChannelMapping).

Definition decode (p : Z * option Z) : ChannelMapping :=
  match p with
  | (l, Some r) => Pair l r
  | (l, None) => Single l
  end.

(** The entries of [audiostream_map], each value read by
    [_parse_audiostream_mapping], in the order of the dictionary. *)
Fixpoint stream_mapping (items : list (Z * string)) : result StreamMapping :=
  match items with
  | [] => ret []
  | (audiostream, mapping) :: rest =>
      p <- _parse_audiostream_mapping mapping ;;
      sm <- stream_mapping rest ;;
      ret ((audiostream, decode p) :: sm)
  end.

Definition referenced (m : ChannelMapping) : list Z :=
  match m with
  | Single c => [c]
  | Pair l r => [l; r]
  end.

Definition entry_max (m : ChannelMapping) : Z :=
  match m with
  | Single c => c
  | Pair l r => Z.max l r
  end.

(** The greatest element of [x :: l]. *)
Fixpoint max_list (x : Z) (l : list Z) : Z :=
  match l with
  | [] => x
  | y :: l' => max_list (Z.max x y) l'
  end.

(** Maximum over all entries of (max of referenced channels) + 1, and 0
    for the empty mapping. *)
Definition maxReferenced (sm : StreamMapping) : Z :=
  match map (fun e => entry_max (snd e) + 1) sm with
  | [] => 0
  | x :: l => max_list x l
  end.

Definition tiers : list Z := [2; 8; 16].

Definition smallest_tier_geq (t n : Z) : Prop :=
  In t tiers /\ n <= t /\ forall t', In t' tiers -> n <= t' -> t <= t'.

(** [rest] does not begin with a digit. *)
Definition stops_digits (rest : string) : Prop :=
  match rest with
  | String c _ => Py.is_digit c = false
  | EmptyString => True
  end.

(** The value of a string of decimal digits. *)
Fixpoint decimal_from (acc : Z) (s : string) : Z :=
  match s with
  | String c s' => decimal_from (acc * 10 + Py.digit_value c) s'
  | EmptyString => acc
  end.

Definition decimal (s : string) : Z := decimal_from 0 s.

(** A non-negative integer as the specification writes it: one or more
    decimal digits. *)
Definition is_natural (s : string) : bool :=
  match s with
  | String _ _ => Py.all_digits s
  | EmptyString => false
  end.

(** The pattern [<N>]. *)
Definition pattern_single (v : string) : bool := is_natural v.

(** The pattern [<L>+<R>]: the whole value is two non-negative integers
    separated by [+]. *)
Definition pattern_pair (v : string) : bool :=
  match Py.span_digits v with
  | (l, String c r) => Ascii.eqb c "+"%char && is_natural l && is_natural r
  | _ => false
  end.

(** The configuration keys the parser recognises, each with the index
    it names and its value, in the order of the section. *)
Definition recognised (kvs : list (string * string)) : list (Z * string) :=
  flat_map
    (fun kv =>
       match re_match_audiostream (fst kv) with
       | Some g => [(decimal g, snd kv)]
       | None => []
       end)
    kvs.

(** The assignment [audiostream_map[index] = value]. *)
Definition assign (d : Dict.t string) (e : Z * string) : Dict.t string :=
  Dict.set d (fst e) (snd e).

(** The value of the last of the entries [l] that names index [i]. *)
Fixpoint latest (i : Z) (l : list (Z * string)) : option string :=
  match l with
  | [] => None
  | (k, v) :: rest =>
      match latest i rest with
      | Some v' => Some v'
      | None => if k =? i then Some v else None
      end
  end.

(** How the specification names the three failures. *)
Definition MalformedMappingError (value : string) : exn := ValueError value.

Definition StreamIndexOutOfRangeError (index limit : Z) : exn :=
  RuntimeError (streams_message index limit).

Definition ChannelCapacityExceededError (required : Z) : exn :=
  RuntimeError (channels_message required).

(** The routing rule an entry stands for, and the text the loop of
    [launch_pipeline] appends for it. *)
Inductive RoutingRule : Type :=
| DirectPair (outputStreamIndex left_ right_ : Z)
| DuplicatedMono (outputStreamIndex channel : Z).

Definition rule_of (e : Z * ChannelMapping) : RoutingRule :=
  match e with
  | (i, Pair l r) => DirectPair i l r
  | (i, Single c) => DuplicatedMono i c
  end.

Definition emitted (name : string) (r : RoutingRule) : list chain :=
  match r with
  | DirectPair i l r => pair_template name i l r
  | DuplicatedMono i c => tee_template name i c
  end.

Definition is_factory (f : string) (n : node) : bool :=
  match n with
  | Element f' _ => String.eqb f f'
  | _ => false
  end.

(** Number of elements of factory [f] in a launch description. *)
Definition count_factory (f : string) (p : list chain) : nat :=
  List.length (filter (is_factory f) (List.concat p)).

(** [a ! b] occurs in the description. *)
Fixpoint adjacent (a b : node) (c : chain) : Prop :=
  match c with
  | x :: (y :: _) as c' => (x = a /\ y = b) \/ adjacent a b c'
  | _ => False
  end.

Definition linked (p : list chain) (a b : node) : Prop :=
  exists c, In c p /\ adjacent a b c.

(** [a ! queue ! b] occurs in the description. *)
Definition queued (p : list chain) (a b : node) : Prop :=
  exists props, linked p a (Element "queue" props)
                /\ linked p (Element "queue" props) b.

(** The mapping [_parse_audiostream_map] builds from a configuration. *)
Definition configured_map (cfg : Config.t) (config_section : string)
  : Dict.t string :=
  match Config.section cfg config_section with
  | Some kvs => fold_left assign (recognised kvs) Dict.empty
  | None => Dict.empty
  end.

(** The object [__init__] has set up when it calls [launch_pipeline]. *)
Definition configured_source (cfg : Config.t) (deinterlacer : option string)
  (name : string) (has_audio has_video : bool) (required : Z)
  : DeckLinkAVSource :=
  let section := "source." ++ name in
  {| name := name; has_audio := has_audio; has_video := has_video;
     super_deinterlacer := deinterlacer;
     device := Config.get cfg section "devicenumber" "0";
     aconn := Config.get cfg section "audio_connection" "auto";
     vconn := Config.get cfg section "video_connection" "auto";
     vmode := Config.get cfg section "video_mode" "1080i50";
     vfmt := Config.get cfg section "video_format" "auto";
     audiostream_map := configured_map cfg section;
     fallback_default := Dict.len (configured_map cfg section) =? 0;
     required_input_channels := required |}.

(** The routing rules of a source, as the loop of [launch_pipeline]
    reads them off its mapping. *)
Definition routing_plan (self : DeckLinkAVSource) : result (list RoutingRule) :=
  sm <- stream_mapping (Dict.items (audiostream_map self)) ;;
  ret (map rule_of sm).

(** ** Observations on mappings and launch descriptions *)

(** Appending [k] to the keys seen so far unless it is among them. *)
Definition add_key (seen : list Z) (k : Z) : list Z :=
  if existsb (Z.eqb k) seen then seen else List.app seen [k].

(** The distinct elements of [l], in the order of their first
    occurrence. *)
Definition first_occurrences (l : list Z) : list Z := fold_left add_key l [].

(** The value of the property [name] of an element. *)
Definition node_name (n : node) : option string :=
  match n with
  | Element _ props => Config.assoc "name" props
  | _ => None
  end.

(** The names given to elements in a launch description. *)
Definition element_names (p : list chain) : list string :=
  flat_map
    (fun n => match node_name n with Some s => [s] | None => [] end)
    (List.concat p).

(** The pad references [element.pad] of a launch description. *)
Definition pad_references (p : list chain) : list (string * string) :=
  flat_map
    (fun n => match n with Pad e pd => [(e, pd)] | _ => [] end)
    (List.concat p).

(** The value of property [key] of the elements of factory [f]. *)
Definition property_of (f key : string) (p : list chain)
  : list (option string) :=
  flat_map
    (fun n =>
       match n with
       | Element f' props =>
           if String.eqb f f' then [Config.assoc key props] else []
       | _ => []
       end)
    (List.concat p).

(** Number of entries with a single channel. *)
Definition singles (sm : StreamMapping) : nat :=
  List.length
    (filter (fun e => match snd e with Single _ => true | Pair _ _ => false end)
       sm).

(** [restart] called [n] times in a row. *)
Fixpoint restarts (n : nat) (self : DeckLinkAVSource) : M unit :=
  match n with
  | O => retM tt
  | S n' => _ <<- restart self ;; restarts n' self
  end.

Definition rule_index (r : RoutingRule) : Z :=
  match r with
  | DirectPair i _ _ => i
  | DuplicatedMono i _ => i
  end.

(** The launch description of a source whose mapping reads as [sm]. *)
Definition description (self : DeckLinkAVSource) (sm : StreamMapping)
  : list chain :=
  video_chain self
  :: (if has_audio self
      then audio_chain self
           :: List.concat (map (emitted (name self)) (map rule_of sm))
      else []).

(** No character of [s] is a blank. *)
Fixpoint no_blank (s : string) : bool :=
  match s with
  | String c s' => negb (Ascii.eqb c " "%char) && no_blank s'
  | EmptyString => true
  end.

(** The key pattern of the specification: the whole key is the word
    audiostream, an opening bracket, one or more digits and a closing
    bracket. *)
Definition key_pattern (key : string) : bool :=
  match Py.strip_prefix "audiostream[" key with
  | Some rest =>
      match Py.span_digits rest with
      | (String _ _, String c EmptyString) => Ascii.eqb c "]"%char
      | _ => false
      end
  | None => false
  end.

(** * Properties *)

(** ** The built-ins on sample inputs *)

Example int_examples :
  map Py.parse_int ["5"; " 5 "; "+5"; "-5"; "1_0"; "007"; "1__0"; "_1"; "1_";
                    ""; "+"; "- 5"; "5 6"; "abc"; "5+"]
  = [Some 5; Some 5; Some 5; Some (-5); Some 10; Some 7; None; None; None;
     None; None; None; None; None; None].
Proof. reflexivity. Qed.

Example re_examples :
  map re_match_pair ["1+2"; "1+2abc"; "12+34+5"; "1+"; "+2"; "1 + 2"; "-1+2"]
  = [Some ("1", "2"); Some ("1", "2"); Some ("12", "34"); None; None; None; None]
  /\ map re_match_audiostream
       ["audiostream[0]"; "audiostream[00]"; "audiostream[0]x";
        "xaudiostream[0]"; "audiostream[]"; "audiostream[1a]"; "devicenumber"]
     = [Some "0"; Some "00"; Some "0"; None; None; None; None].
Proof. split; reflexivity. Qed.

Example str_examples :
  map Py.str [0; 5; 16; -5; 120] = ["0"; "5"; "16"; "-5"; "120"].
Proof. reflexivity. Qed.

Example dict_examples :
  Dict.set (Dict.set (Dict.set Dict.empty 1 "a") 2 "b") 1 "c"
  = [(1, "c"); (2, "b")].
Proof. reflexivity. Qed.

(** ** Characters and digit strings *)

Section Digits.

Import Py.

Lemma digit_value_range c : is_digit c = true -> 0 <= digit_value c <= 9.
Proof.
  unfold is_digit, digit_value. intros H.
  apply andb_true_iff in H. destruct H as [H1 H2].
  apply Z.leb_le in H1. apply Z.leb_le in H2. lia.
Qed.

Lemma digit_not_space c : is_digit c = true -> is_space c = false.
Proof.
  unfold is_digit, is_space. intros H.
  apply andb_true_iff in H. destruct H as [H1 H2].
  apply Z.leb_le in H1. apply Z.leb_le in H2.
  repeat rewrite orb_false_iff. repeat split.
  - apply andb_false_iff. right. apply Z.leb_gt. lia.
  - apply Z.eqb_neq. lia.
  - apply Z.eqb_neq. lia.
  - apply Z.eqb_neq. lia.
Qed.

(** A digit is none of the punctuation characters the parsers test. *)
Lemma digit_not_char c x :
  is_digit x = false -> is_digit c = true -> Ascii.eqb c x = false.
Proof.
  intros Hx Hc. destruct (Ascii.eqb_spec c x) as [->|]; congruence.
Qed.

Lemma span_digits_spec s ds rest :
  span_digits s = (ds, rest) ->
  s = ds ++ rest /\ all_digits ds = true /\ stops_digits rest.
Proof.
  revert ds rest. induction s as [|c s IH]; simpl; intros ds rest H.
  - inversion H; subst. repeat split.
  - destruct (is_digit c) eqn:Hc.
    + destruct (span_digits s) as [ds' rest'] eqn:Hs.
      inversion H; subst. destruct (IH _ _ eq_refl) as (-> & Hd & Hr).
      simpl. rewrite Hc, Hd. auto.
    + inversion H; subst. simpl. auto.
Qed.

Lemma span_digits_app ds rest :
  all_digits ds = true -> stops_digits rest ->
  span_digits (ds ++ rest) = (ds, rest).
Proof.
  induction ds as [|c ds IH]; simpl; intros Hd Hr.
  - destruct rest as [|c r]; simpl in *; [reflexivity | now rewrite Hr].
  - apply andb_true_iff in Hd. destruct Hd as [Hc Hd].
    rewrite Hc, IH; auto.
Qed.

Lemma decimal_from_nonneg s : forall acc,
  0 <= acc -> all_digits s = true -> 0 <= decimal_from acc s.
Proof.
  induction s as [|c s IH]; simpl; intros acc Ha Hd; [assumption|].
  apply andb_true_iff in Hd. destruct Hd as [Hc Hd].
  apply IH; [|assumption]. pose proof (digit_value_range c Hc). lia.
Qed.

Lemma int_tail_digits s : forall acc,
  all_digits s = true -> int_tail acc s = (decimal_from acc s, EmptyString).
Proof.
  induction s as [|c s IH]; simpl; intros acc Hd; [reflexivity|].
  apply andb_true_iff in Hd. destruct Hd as [Hc Hd].
  rewrite Hc. now apply IH.
Qed.

Lemma is_natural_inv s :
  is_natural s = true ->
  exists c s', s = String c s' /\ is_digit c = true /\ all_digits s' = true.
Proof.
  destruct s as [|c s']; simpl; [discriminate|]. intros H.
  apply andb_true_iff in H. destruct H. eauto.
Qed.

(** [int()] reads a string of digits as its decimal value. *)
Lemma parse_int_natural s :
  is_natural s = true -> parse_int s = Some (decimal s) /\ 0 <= decimal s.
Proof.
  intros H. destruct (is_natural_inv s H) as (c & s' & -> & Hc & Hd).
  split.
  - unfold parse_int. simpl lstrip. rewrite (digit_not_space c Hc).
    rewrite (digit_not_char c "+"%char eq_refl Hc).
    rewrite (digit_not_char c "-"%char eq_refl Hc).
    simpl. rewrite Hc, (int_tail_digits s' _ Hd). reflexivity.
  - unfold decimal. apply decimal_from_nonneg; [lia|].
    simpl. now rewrite Hc, Hd.
Qed.

Lemma int_natural s :
  is_natural s = true -> int s = inr (decimal s).
Proof.
  intros H. unfold int. now rewrite (proj1 (parse_int_natural s H)).
Qed.

End Digits.

(** ** Strings and numerals *)

Lemma append_inj_l p : forall x y, p ++ x = p ++ y -> x = y.
Proof.
  induction p as [|c p IH]; simpl; intros x y H; [exact H|].
  inversion H. now apply IH.
Qed.

Lemma length_append x : forall y,
  String.length (x ++ y) = (String.length x + String.length y)%nat.
Proof. induction x as [|c x IH]; simpl; intros y; [reflexivity | now rewrite IH]. Qed.


Lemma append_inj_r s : forall x y, x ++ s = y ++ s -> x = y.
Proof.
  induction x as [|c x IH]; intros [|c' y] H; simpl in H.
  - reflexivity.
  - apply (f_equal String.length) in H. simpl in H.
    rewrite length_append in H. lia.
  - apply (f_equal String.length) in H. simpl in H.
    rewrite length_append in H. lia.
  - inversion H. f_equal. now apply IH.
Qed.

Lemma left_is_not_right x : forall y, x ++ "-left" <> y ++ "-right".
Proof.
  induction x as [|c x IH]; intros [|c' y] H; simpl in H.
  - discriminate.
  - apply (f_equal String.length) in H. simpl in H.
    rewrite length_append in H. simpl in H. lia.
  - inversion H as [[Hc Hx]].
    assert (Hl := f_equal String.length Hx). rewrite length_append in Hl.
    simpl in Hl. destruct x; [discriminate | simpl in Hl; lia].
  - inversion H. now apply (IH y).
Qed.

(** Distinct integers are written differently. *)
Lemma str_inj a b : Py.str a = Py.str b -> a = b.
Proof.
  unfold Py.str. intros H.
  assert (Hn : forall n, Z.to_int n <> Decimal.Pos Decimal.Nil
                         /\ Z.to_int n <> Decimal.Neg Decimal.Nil).
  { intros n. split; intros E; pose proof (f_equal Z.of_int E) as E0;
      rewrite DecimalZ.of_to in E0; simpl in E0; subst n; discriminate E. }
  apply DecimalZ.to_int_inj.
  assert (Hs : Some (Z.to_int a) = Some (Z.to_int b)).
  { rewrite <- (NilZero.isi (Z.to_int a)), <- (NilZero.isi (Z.to_int b));
      try apply Hn. now rewrite H. }
  now inversion Hs.
Qed.

Lemma no_blank_uint d : no_blank (NilEmpty.string_of_uint d) = true.
Proof. induction d; simpl; auto. Qed.

(** A numeral has no blank in it. *)
Lemma no_blank_str n : no_blank (Py.str n) = true.
Proof.
  unfold Py.str, NilZero.string_of_int, NilZero.string_of_uint.
  destruct (Z.to_int n) as [d|d]; destruct d; simpl;
    try reflexivity; apply no_blank_uint.
Qed.

(** Two texts that agree, each a blank-free word followed by a blank,
    agree on the word and on what follows the blank. *)
Lemma split_at_blank x : forall y s t,
  no_blank x = true -> no_blank y = true ->
  x ++ String " " s = y ++ String " " t -> x = y /\ s = t.
Proof.
  induction x as [|c x IH]; intros [|c' y] s t Hx Hy H; simpl in *.
  - inversion H. auto.
  - inversion H; subst. discriminate Hy.
  - inversion H; subst. discriminate Hx.
  - apply andb_true_iff in Hx, Hy. destruct Hx as [_ Hx], Hy as [_ Hy].
    inversion H; subst. destruct (IH y s t Hx Hy) as [-> ->]; auto.
Qed.

(** The message of the stream-index error tells the index and the
    limit: different pairs give different messages. *)
Lemma streams_message_inj i j i' j' :
  streams_message i j = streams_message i' j' -> i = i' /\ j = j'.
Proof.
  unfold streams_message. intros H. apply append_inj_l in H.
  apply split_at_blank in H; try apply no_blank_str.
  destruct H as [Hi Hj]. apply str_inj in Hi.
  apply (append_inj_l "found,but only ") in Hj.
  apply append_inj_r in Hj. apply str_inj in Hj. auto.
Qed.

(** ** The regular expressions and the value parser *)

Lemma re_match_pair_groups v g1 g2 :
  re_match_pair v = Some (g1, g2) ->
  is_natural g1 = true /\ is_natural g2 = true /\
  exists rest, v = g1 ++ "+" ++ g2 ++ rest /\ stops_digits rest.
Proof.
  unfold re_match_pair. intros H.
  destruct (Py.span_digits v) as [l rest1] eqn:H1.
  destruct l as [|l ls]; [discriminate|].
  destruct rest1 as [|c rest1]; [discriminate|].
  destruct (Ascii.eqb_spec c "+"%char) as [->|]; [|discriminate].
  destruct (Py.span_digits rest1) as [r rest2] eqn:H2.
  destruct r as [|r rs]; [discriminate|].
  inversion H; subst; clear H.
  apply span_digits_spec in H1. destruct H1 as (-> & Hd1 & _).
  apply span_digits_spec in H2. destruct H2 as (-> & Hd2 & Hs).
  split; [exact Hd1|]. split; [exact Hd2|].
  exists rest2. split; [reflexivity|assumption].
Qed.

Lemma re_match_pair_intro g1 g2 rest :
  is_natural g1 = true -> is_natural g2 = true -> stops_digits rest ->
  re_match_pair (g1 ++ "+" ++ g2 ++ rest) = Some (g1, g2).
Proof.
  intros H1 H2 Hs.
  destruct (is_natural_inv _ H1) as (c1 & s1 & -> & Hc1 & Hd1).
  destruct (is_natural_inv _ H2) as (c2 & s2 & -> & Hc2 & Hd2).
  unfold re_match_pair.
  rewrite (span_digits_app (String c1 s1) ("+" ++ String c2 s2 ++ rest));
    [|exact H1|reflexivity].
  simpl append at 1. cbv iota beta.
  replace (Ascii.eqb "+" "+") with true by reflexivity.
  change (String c2 (s2 ++ rest)) with (String c2 s2 ++ rest).
  rewrite (span_digits_app (String c2 s2) rest); [reflexivity|exact H2|exact Hs].
Qed.

Lemma re_match_audiostream_group key g :
  re_match_audiostream key = Some g ->
  is_natural g = true /\ exists rest, key = "audiostream[" ++ g ++ "]" ++ rest.
Proof.
  unfold re_match_audiostream. intros H.
  destruct (Py.strip_prefix "audiostream[" key) as [rest|] eqn:Hp; [|discriminate].
  destruct (Py.span_digits rest) as [ds rest'] eqn:Hs.
  destruct ds as [|d ds]; [discriminate|].
  destruct rest' as [|c rest']; [discriminate|].
  destruct (Ascii.eqb_spec c "]"%char) as [->|]; [|discriminate].
  inversion H; subst; clear H.
  apply span_digits_spec in Hs. destruct Hs as (-> & Hd & _).
  split; [exact Hd|]. exists rest'.
  assert (Hk : forall p s r, Py.strip_prefix p s = Some r -> s = p ++ r).
  { clear. induction p as [|a p IH]; simpl; intros s r H.
    - congruence.
    - destruct s as [|b s]; [discriminate|].
      destruct (Ascii.eqb_spec a b) as [->|]; [|discriminate].
      f_equal. now apply IH. }
  apply Hk in Hp. rewrite Hp. reflexivity.
Qed.

Lemma strip_prefix_app p s : Py.strip_prefix p (p ++ s) = Some s.
Proof.
  induction p as [|a p IH]; simpl; [reflexivity|].
  now rewrite Ascii.eqb_refl.
Qed.

Lemma strip_prefix_spec p : forall s r,
  Py.strip_prefix p s = Some r -> s = p ++ r.
Proof.
  induction p as [|a p IH]; simpl; intros s r H.
  - congruence.
  - destruct s as [|b s]; [discriminate|].
    destruct (Ascii.eqb_spec a b) as [->|]; [|discriminate].
    f_equal. now apply IH.
Qed.

(** A key that begins with the pattern is recognised, whatever follows
    the closing bracket. *)
Lemma re_match_audiostream_intro g rest :
  is_natural g = true ->
  re_match_audiostream ("audiostream[" ++ g ++ "]" ++ rest) = Some g.
Proof.
  intros Hg. unfold re_match_audiostream. rewrite strip_prefix_app.
  rewrite (span_digits_app g ("]" ++ rest));
    [|destruct g; [discriminate | exact Hg] | reflexivity].
  destruct g as [|c g]; [discriminate|]. reflexivity.
Qed.

(** A key of the exact pattern of the specification is recognised. *)
Lemma key_pattern_recognised key :
  key_pattern key = true ->
  exists g, is_natural g = true
            /\ key = "audiostream[" ++ g ++ "]"
            /\ re_match_audiostream key = Some g.
Proof.
  unfold key_pattern. intros H.
  destruct (Py.strip_prefix "audiostream[" key) as [rest|] eqn:Hp;
    [|discriminate].
  destruct (Py.span_digits rest) as [ds rest'] eqn:Hs.
  destruct ds as [|d ds]; [discriminate|].
  destruct rest' as [|c [|c' rest']]; try discriminate.
  apply Ascii.eqb_eq in H. subst c.
  apply span_digits_spec in Hs. destruct Hs as (-> & Hd & _).
  apply strip_prefix_spec in Hp. exists (String d ds).
  split; [exact Hd|]. split; [exact Hp|].
  rewrite Hp. apply (re_match_audiostream_intro (String d ds) "" Hd).
Qed.

Lemma parse_mapping_of_pair v g1 g2 :
  re_match_pair v = Some (g1, g2) ->
  _parse_audiostream_mapping v = inr (decimal g1, Some (decimal g2))
  /\ 0 <= decimal g1 /\ 0 <= decimal g2.
Proof.
  intros H. unfold _parse_audiostream_mapping. rewrite H.
  destruct (re_match_pair_groups _ _ _ H) as (H1 & H2 & _).
  rewrite (int_natural _ H1), (int_natural _ H2).
  split; [reflexivity|].
  split; [apply (parse_int_natural _ H1)|apply (parse_int_natural _ H2)].
Qed.

Lemma parse_mapping_of_single v :
  re_match_pair v = None ->
  _parse_audiostream_mapping v =
    match Py.parse_int v with
    | Some z => inr (z, None)
    | None => inl (ValueError v)
    end.
Proof.
  intros H. unfold _parse_audiostream_mapping, Py.int. rewrite H.
  destruct (Py.parse_int v); reflexivity.
Qed.

(** Both channels of a two-channel mapping are non-negative. *)
Lemma parse_mapping_pair_nonneg v l r :
  _parse_audiostream_mapping v = inr (l, Some r) -> 0 <= l /\ 0 <= r.
Proof.
  intros H. destruct (re_match_pair v) as [[g1 g2]|] eqn:Hm.
  - destruct (parse_mapping_of_pair _ _ _ Hm) as (Hp & H1 & H2).
    rewrite Hp in H. inversion H; subst. auto.
  - rewrite (parse_mapping_of_single _ Hm) in H.
    destruct (Py.parse_int v); discriminate.
Qed.

(** The only exception of the value parser is [int()]'s, on the whole
    value. *)
Lemma parse_mapping_error v e :
  _parse_audiostream_mapping v = inl e ->
  e = ValueError v /\ re_match_pair v = None /\ Py.parse_int v = None.
Proof.
  intros H. destruct (re_match_pair v) as [[g1 g2]|] eqn:Hm.
  - destruct (parse_mapping_of_pair _ _ _ Hm) as (Hp & _). congruence.
  - rewrite (parse_mapping_of_single _ Hm) in H.
    destruct (Py.parse_int v); inversion H; auto.
Qed.

(** ** The channel-count planner *)

Lemma max_list_max l : forall a b,
  max_list (Z.max a b) l = Z.max a (max_list b l).
Proof.
  induction l as [|y l IH]; simpl; intros a b; [reflexivity|].
  rewrite <- IH. f_equal. lia.
Qed.

Lemma max_list_bounds l : forall x,
  x <= max_list x l /\ forall y, In y l -> y <= max_list x l.
Proof.
  induction l as [|z l IH]; simpl; intros x.
  - split; [lia | intros y []].
  - destruct (IH (Z.max x z)) as [H1 H2]. split; [lia|].
    intros y [<-|Hy]; [lia | auto].
Qed.

(** The loop of [_calculate_required_input_channels] reads the values as
    [stream_mapping] does and keeps the running maximum. *)
Lemma required_loop_spec items : forall sm acc,
  stream_mapping items = inr sm ->
  required_loop items acc
  = inr (max_list acc (map (fun e => entry_max (snd e) + 1) sm)).
Proof.
  induction items as [|[i v] items IH]; simpl; intros sm acc H.
  - inversion H; subst. reflexivity.
  - destruct (_parse_audiostream_mapping v) as [e|[l r]] eqn:Hp;
      simpl in *; [discriminate|].
    destruct (stream_mapping items) as [e|sm'] eqn:Hs;
      simpl in *; [discriminate|].
    inversion H; subst; clear H. simpl.
    rewrite (IH sm' _ eq_refl). f_equal. f_equal.
    destruct r as [r|]; simpl; [|reflexivity].
    destruct (parse_mapping_pair_nonneg _ _ _ Hp) as [Hl Hr].
    destruct (Z.eqb_spec r 0); simpl; lia.
Qed.

(** The loop fails exactly where reading the values fails. *)
Lemma required_loop_error items : forall acc e,
  required_loop items acc = inl e <-> stream_mapping items = inl e.
Proof.
  induction items as [|[i v] items IH]; simpl; intros acc e.
  - split; discriminate.
  - destruct (_parse_audiostream_mapping v) as [e'|[l r]] eqn:Hp; simpl.
    + split; intros H; inversion H; reflexivity.
    + rewrite IH. destruct (stream_mapping items); simpl;
        split; intros H; inversion H; reflexivity.
Qed.

Lemma required_loop_total items acc :
  (exists c, required_loop items acc = inr c)
  <-> exists sm, stream_mapping items = inr sm.
Proof.
  split.
  - intros [c Hc]. destruct (stream_mapping items) as [e|sm] eqn:Hs; eauto.
    apply (required_loop_error items acc) in Hs. congruence.
  - intros [sm Hs]. rewrite (required_loop_spec _ _ _ Hs). eauto.
Qed.

Lemma max_list_zero_maxReferenced sm :
  max_list 0 (map (fun e => entry_max (snd e) + 1) sm)
  = Z.max 0 (maxReferenced sm).
Proof.
  unfold maxReferenced.
  destruct (map (fun e => entry_max (snd e) + 1) sm) as [|x l]; simpl.
  - reflexivity.
  - apply max_list_max.
Qed.

Lemma round_decklink_channels_spec n :
  (n <= 16 -> exists t, _round_decklink_channels n = inr t
                        /\ smallest_tier_geq t n)
  /\ (16 < n -> _round_decklink_channels n
                = inl (ChannelCapacityExceededError n)).
Proof.
  unfold _round_decklink_channels, smallest_tier_geq, tiers,
    ChannelCapacityExceededError, raise, ret.
  destruct (Z.gtb_spec n 16); [split; [lia | reflexivity]|].
  split; [intros _ | lia].
  destruct (Z.gtb_spec n 8); [|destruct (Z.gtb_spec n 2)];
    eexists; (split; [reflexivity|]); simpl;
    (split; [tauto|]); (split; [lia|]);
    intros t' [<-|[<-|[<-|[]]]]; lia.
Qed.

Lemma round_decklink_channels_ok n t :
  _round_decklink_channels n = inr t -> n <= t /\ In t tiers.
Proof.
  destruct (round_decklink_channels_spec n) as [H1 H2]. intros H.
  destruct (Z.le_gt_cases n 16) as [Hn|Hn].
  - destruct (H1 Hn) as (t' & Ht & Hin & Hle & _).
    rewrite Ht in H. inversion H; subst. auto.
  - rewrite (H2 Hn) in H. discriminate.
Qed.

Lemma calculate_required_unfold m sm :
  stream_mapping (Dict.items m) = inr sm ->
  _calculate_required_input_channels m
  = _round_decklink_channels (Z.max 0 (maxReferenced sm)).
Proof.
  intros H. unfold _calculate_required_input_channels.
  rewrite (required_loop_spec _ _ _ H), max_list_zero_maxReferenced.
  reflexivity.
Qed.

Lemma planner_tiers m sm :
  stream_mapping (Dict.items m) = inr sm ->
  (maxReferenced sm <= 16 ->
   exists t, _calculate_required_input_channels m = inr t
             /\ smallest_tier_geq t (maxReferenced sm))
  /\ (16 < maxReferenced sm ->
      _calculate_required_input_channels m
      = inl (ChannelCapacityExceededError (maxReferenced sm))).
Proof.
  intros H. rewrite (calculate_required_unfold _ _ H).
  destruct (round_decklink_channels_spec (Z.max 0 (maxReferenced sm)))
    as [H1 H2].
  split; intros Hn.
  - destruct H1 as (t & Ht & Hin & Hle & Hmin); [lia|].
    exists t. split; [exact Ht|]. unfold smallest_tier_geq.
    split; [exact Hin|]. split; [lia|].
    intros t' Hin' Hle'. apply Hmin; [exact Hin'|].
    destruct Hin' as [<-|[<-|[<-|[]]]]; lia.
  - replace (Z.max 0 (maxReferenced sm)) with (maxReferenced sm) in * by lia.
    apply H2. exact Hn.
Qed.

(** C1.  For a mapping all of whose values can be read, the planner
    returns the smallest of the tiers 2, 8 and 16 that is at least
    [maxReferenced] (the greatest referenced channel plus one, 0 for the
    empty mapping); when [maxReferenced] exceeds 16 it raises the
    channel-capacity error, reporting [maxReferenced], and returns no
    tier. *)
Theorem C1_planner_smallest_tier :
  forall (audiostream_map : Dict.t string) (sm : StreamMapping),
    stream_mapping (Dict.items audiostream_map) = inr sm ->
    (maxReferenced sm <= 16 ->
     exists t, _calculate_required_input_channels audiostream_map = inr t
               /\ smallest_tier_geq t (maxReferenced sm))
    /\ (16 < maxReferenced sm ->
        _calculate_required_input_channels audiostream_map
        = inl (ChannelCapacityExceededError (maxReferenced sm))).
Proof.
  intros m sm H. exact (planner_tiers m sm H).
Qed.

Lemma C1_planner_smallest_tier_witness :
  exists t,
    _calculate_required_input_channels [(0, "1"); (1, "2+5")] = inr t
    /\ smallest_tier_geq t 6.
Proof.
  apply (proj1 (C1_planner_smallest_tier
                  [(0, "1"); (1, "2+5")]
                  [(0, Single 1); (1, Pair 2 5)] eq_refl)).
  vm_compute. discriminate.
Defined.

(** The examples of the specification: channel 5 needs tier 8, channel 1
    tier 2, channel 15 tier 16, and channel 16 is refused. *)
Example planner_examples :
  map _calculate_required_input_channels
    [[(0, "5")]; [(0, "1")]; [(0, "15")]; [(0, "16")]; []; [(0, "2+3")]]
  = [inr 8; inr 2; inr 16; inl (ChannelCapacityExceededError 17); inr 2; inr 8].
Proof. reflexivity. Qed.

Lemma stream_mapping_In items : forall sm i m,
  stream_mapping items = inr sm -> In (i, m) sm ->
  exists v, In (i, v) items
            /\ exists p, _parse_audiostream_mapping v = inr p /\ m = decode p.
Proof.
  induction items as [|[k v] items IH]; simpl; intros sm i m H Hin.
  - inversion H; subst. destruct Hin.
  - destruct (_parse_audiostream_mapping v) as [e|p] eqn:Hp;
      simpl in *; [discriminate|].
    destruct (stream_mapping items) as [e|sm'] eqn:Hs;
      simpl in *; [discriminate|].
    inversion H; subst; clear H. destruct Hin as [Heq|Hin].
    + inversion Heq; subst. exists v. split; [auto|]. exists p. auto.
    + destruct (IH _ _ _ eq_refl Hin) as (v' & Hv & Hp'). exists v'. auto.
Qed.

Lemma referenced_le_entry_max m c : In c (referenced m) -> c <= entry_max m.
Proof.
  destruct m as [ch|l r]; simpl; intros H.
  - destruct H as [<-|[]]. lia.
  - destruct H as [<-|[<-|[]]]; lia.
Qed.

Lemma maxReferenced_bound sm i m :
  In (i, m) sm -> entry_max m + 1 <= maxReferenced sm.
Proof.
  intros Hin. unfold maxReferenced.
  apply (in_map (fun e => entry_max (snd e) + 1)) in Hin. simpl in Hin.
  destruct (map (fun e => entry_max (snd e) + 1) sm) as [|x l]; [destruct Hin|].
  destruct (max_list_bounds l x) as [H1 H2].
  destruct Hin as [<-|Hin]; [exact H1 | exact (H2 _ Hin)].
Qed.

Lemma planner_accepts_readable m t :
  _calculate_required_input_channels m = inr t ->
  exists sm, stream_mapping (Dict.items m) = inr sm.
Proof.
  intros H. destruct (stream_mapping (Dict.items m)) as [e|sm] eqn:Hs; eauto.
  exfalso. unfold _calculate_required_input_channels in H.
  apply (required_loop_error _ 0) in Hs. rewrite Hs in H. discriminate.
Qed.

(** C6.  When the planner accepts a mapping, every value of the mapping
    can be read and every channel it references, the left and the right
    one of a pair included, is strictly below the number of input
    channels the planner returns. *)
Theorem C6_referenced_channels_below_required :
  forall (audiostream_map : Dict.t string) (required_input_channels : Z),
    _calculate_required_input_channels audiostream_map
    = inr required_input_channels ->
    exists sm,
      stream_mapping (Dict.items audiostream_map) = inr sm
      /\ forall i m c,
           In (i, m) sm -> In c (referenced m) ->
           c < required_input_channels.
Proof.
  intros m t H.
  destruct (stream_mapping (Dict.items m)) as [e|sm] eqn:Hs.
  - exfalso. unfold _calculate_required_input_channels in H.
    apply (required_loop_error _ 0) in Hs. rewrite Hs in H. discriminate.
  - exists sm. split; [reflexivity|]. intros i cm c Hin Hc.
    rewrite (calculate_required_unfold _ _ Hs) in H.
    apply round_decklink_channels_ok in H. destruct H as [Hle _].
    pose proof (referenced_le_entry_max _ _ Hc).
    pose proof (maxReferenced_bound _ _ _ Hin). lia.
Qed.

Lemma C6_referenced_channels_below_required_witness :
  exists sm,
    stream_mapping [(0, "3+0"); (1, "7")] = inr sm
    /\ forall i m c, In (i, m) sm -> In c (referenced m) -> c < 8.
Proof.
  apply (C6_referenced_channels_below_required [(0, "3+0"); (1, "7")] 8).
  reflexivity.
Defined.

(** ** Dictionaries *)

Lemma dict_get_set {V} (d : Dict.t V) k v k' :
  Dict.get (Dict.set d k v) k' = if k =? k' then Some v else Dict.get d k'.
Proof.
  induction d as [|[k0 v0] d IH]; simpl.
  - reflexivity.
  - destruct (Z.eqb_spec k0 k) as [->|Hne]; simpl.
    + destruct (Z.eqb_spec k k'); reflexivity.
    + destruct (Z.eqb_spec k0 k') as [->|]; [|exact IH].
      destruct (Z.eqb_spec k k'); [congruence | reflexivity].
Qed.

Lemma dict_keys_set {V} (d : Dict.t V) k v k' :
  In k' (Dict.keys (Dict.set d k v)) <-> k' = k \/ In k' (Dict.keys d).
Proof.
  unfold Dict.keys. induction d as [|[k0 v0] d IH]; simpl.
  - intuition.
  - destruct (Z.eqb_spec k0 k) as [->|Hne]; simpl; [intuition|].
    rewrite IH. intuition.
Qed.

Lemma dict_set_NoDup {V} (d : Dict.t V) k v :
  NoDup (Dict.keys d) -> NoDup (Dict.keys (Dict.set d k v)).
Proof.
  unfold Dict.keys. induction d as [|[k0 v0] d IH]; simpl; intros H.
  - constructor; [intros [] | constructor].
  - inversion H as [|? ? Hn Hd]; subst.
    destruct (Z.eqb_spec k0 k) as [->|Hne]; simpl.
    + constructor; assumption.
    + constructor; [|auto]. intros Hin.
      apply (dict_keys_set d k v k0) in Hin.
      destruct Hin as [Heq|Hin]; [congruence | exact (Hn Hin)].
Qed.

Lemma dict_set_fresh {V} (d : Dict.t V) k v :
  ~ In k (Dict.keys d) -> Dict.set d k v = (d ++ [(k, v)])%list.
Proof.
  unfold Dict.keys. induction d as [|[k0 v0] d IH]; simpl; intros H.
  - reflexivity.
  - destruct (Z.eqb_spec k0 k) as [->|Hne]; [tauto|].
    f_equal. apply IH. tauto.
Qed.

Lemma dict_set_length {V} (d : Dict.t V) k v :
  (List.length d <= List.length (Dict.set d k v) <= S (List.length d))%nat.
Proof.
  induction d as [|[k0 v0] d IH]; simpl; [lia|].
  destruct (k0 =? k); simpl; lia.
Qed.

Lemma fold_assign_get l : forall d i,
  Dict.get (fold_left assign l d) i =
    match latest i l with
    | Some v => Some v
    | None => Dict.get d i
    end.
Proof.
  induction l as [|[k v] l IH]; simpl; intros d i; [reflexivity|].
  rewrite IH. destruct (latest i l); [reflexivity|].
  unfold assign. simpl. rewrite dict_get_set.
  destruct (k =? i); reflexivity.
Qed.

Lemma fold_assign_NoDup l : forall d,
  NoDup (Dict.keys d) -> NoDup (Dict.keys (fold_left assign l d)).
Proof.
  induction l as [|e l IH]; simpl; intros d H; [exact H|].
  apply IH. now apply dict_set_NoDup.
Qed.

Lemma fold_assign_length l : forall d,
  (List.length (fold_left assign l d) <= List.length d + List.length l)%nat.
Proof.
  induction l as [|e l IH]; simpl; intros d; [lia|].
  specialize (IH (assign d e)).
  pose proof (dict_set_length d (fst e) (snd e)). unfold assign in *. lia.
Qed.

Lemma fold_assign_distinct l : forall d,
  NoDup (Dict.keys d ++ map fst l) -> fold_left assign l d = (d ++ l)%list.
Proof.
  induction l as [|[k v] l IH]; simpl; intros d H.
  - now rewrite app_nil_r.
  - assert (Hk : ~ In k (Dict.keys d)).
    { intros Hin. apply NoDup_remove_2 in H. apply H.
      apply in_or_app. now left. }
    unfold assign at 2. simpl. rewrite (dict_set_fresh d k v Hk).
    rewrite IH.
    + now rewrite <- app_assoc.
    + unfold Dict.keys in *. rewrite map_app. simpl.
      rewrite <- app_assoc. exact H.
Qed.

(** ** The mapping parser *)

Lemma audiostream_map_loop_spec kvs : forall d,
  audiostream_map_loop kvs d = inr (fold_left assign (recognised kvs) d).
Proof.
  induction kvs as [|[key value] kvs IH]; simpl; intros d; [reflexivity|].
  destruct (re_match_audiostream key) as [g|] eqn:Hm; simpl.
  - destruct (re_match_audiostream_group _ _ Hm) as [Hg _].
    rewrite (int_natural _ Hg). simpl. apply IH.
  - apply IH.
Qed.

Lemma recognised_app l1 l2 :
  recognised (l1 ++ l2) = (recognised l1 ++ recognised l2)%list.
Proof. unfold recognised. apply flat_map_app. Qed.

(** C7, as the code has it.  A missing section gives the empty
    mapping.  Otherwise the parser never fails and assigns, in the
    order of the section, the value of every recognised key to its
    index: a key that is not recognised changes nothing; looking an
    index up gives the value of the last recognised key that names it,
    so a later entry overwrites an earlier one; no index occurs twice,
    and when the recognised keys name distinct indices the mapping has
    exactly one entry per recognised key, in their order.  A key is
    recognised exactly when it begins with the word audiostream, an
    opening bracket, one or more digits and a closing bracket; what
    follows the closing bracket is not looked at, so every key of the
    exact form [audiostream[<index>]] is recognised, and so is such a
    key with further text after it. *)
Theorem C7_mapping_parser :
  forall (cfg : Config.t) (config_section : string),
    (Config.section cfg config_section = None ->
     _parse_audiostream_map cfg config_section = inr [])
    /\ (forall kvs,
          Config.section cfg config_section = Some kvs ->
          exists m,
            _parse_audiostream_map cfg config_section = inr m
            /\ (forall i, Dict.get m i = latest i (recognised kvs))
            /\ NoDup (Dict.keys m)
            /\ (List.length m <= List.length (recognised kvs))%nat
            /\ (NoDup (map fst (recognised kvs)) -> m = recognised kvs))
    /\ (forall kvs1 key value kvs2,
          re_match_audiostream key = None ->
          audiostream_map_loop (kvs1 ++ (key, value) :: kvs2) Dict.empty
          = audiostream_map_loop (kvs1 ++ kvs2) Dict.empty)
    /\ (forall key g,
          re_match_audiostream key = Some g
          <-> (is_natural g = true
               /\ exists rest, key = "audiostream[" ++ g ++ "]" ++ rest))
    /\ (forall key,
          key_pattern key = true ->
          exists g, is_natural g = true
                    /\ key = "audiostream[" ++ g ++ "]"
                    /\ forall value,
                         recognised [(key, value)] = [(decimal g, value)]).
Proof.
  intros cfg sec. unfold _parse_audiostream_map.
  split; [|split; [|split; [|split]]].
  - intros ->. reflexivity.
  - intros kvs ->. rewrite audiostream_map_loop_spec.
    eexists. split; [reflexivity|]. split; [|split; [|split]].
    + intros i. rewrite fold_assign_get. simpl.
      destruct (latest i (recognised kvs)); reflexivity.
    + apply fold_assign_NoDup. constructor.
    + apply (fold_assign_length (recognised kvs) Dict.empty).
    + intros H. apply (fold_assign_distinct (recognised kvs) Dict.empty H).
  - intros kvs1 key value kvs2 Hm.
    rewrite !audiostream_map_loop_spec, !recognised_app. simpl.
    rewrite Hm. reflexivity.
  - intros key g. split; [apply re_match_audiostream_group|].
    intros (Hg & rest & ->). now apply re_match_audiostream_intro.
  - intros key H. destruct (key_pattern_recognised key H) as (g & Hg & Hk & Hm).
    exists g. split; [exact Hg|]. split; [exact Hk|].
    intros value. unfold recognised. simpl. rewrite Hm. reflexivity.
Qed.

(** A key with text after the closing bracket is not of the form
    audiostream, bracket, index, bracket, yet it is not ignored: here
    it overwrites the entry of stream 0, which without it would keep
    the value 1. *)
Lemma C7_suffixed_key_is_not_ignored :
  key_pattern "audiostream[0]-comment" = false
  /\ _parse_audiostream_map
       {| Config.sections :=
            [("source.cam", [("audiostream[0]", "1");
                             ("audiostream[0]-comment", "2+3")])];
          Config.mix_audiostreams := 1 |} "source.cam"
     = inr [(0, "2+3")]
  /\ _parse_audiostream_map
       {| Config.sections := [("source.cam", [("audiostream[0]", "1")])];
          Config.mix_audiostreams := 1 |} "source.cam"
     = inr [(0, "1")].
Proof. repeat split. Qed.

Lemma C7_mapping_parser_witness :
  let cfg :=
    {| Config.sections :=
         [("source.cam", [("devicenumber", "1"); ("audiostream[0]", "0+1");
                          ("audiostream[1]", "2"); ("audiostream[00]", "4")])];
       Config.mix_audiostreams := 2 |} in
  _parse_audiostream_map cfg "source.nocam" = inr []
  /\ exists m,
       _parse_audiostream_map cfg "source.cam" = inr m
       /\ Dict.get m 0 = Some "4" /\ Dict.get m 1 = Some "2"
       /\ List.length m = 2%nat.
Proof.
  intros cfg.
  destruct (C7_mapping_parser cfg "source.nocam") as (H0 & _ & _).
  destruct (C7_mapping_parser cfg "source.cam") as (_ & H1 & _).
  split; [apply H0; reflexivity|].
  destruct (H1 _ eq_refl) as (m & Hm & Hget & _).
  exists m. split; [exact Hm|].
  rewrite !Hget. split; [reflexivity|]. split; [reflexivity|].
  vm_compute in Hm. inversion Hm. reflexivity.
Defined.

(** ** The routing loop *)

Lemma routing_loop_spec name items : forall sm pipeline,
  stream_mapping items = inr sm ->
  routing_loop name items pipeline
  = inr (pipeline ++ List.concat (map (emitted name) (map rule_of sm)))%list.
Proof.
  induction items as [|[i v] items IH]; simpl; intros sm pipeline H.
  - inversion H; subst. simpl. now rewrite app_nil_r.
  - destruct (_parse_audiostream_mapping v) as [e|[l r]] eqn:Hp;
      simpl in *; [discriminate|].
    destruct (stream_mapping items) as [e|sm'] eqn:Hs;
      simpl in *; [discriminate|].
    inversion H; subst; clear H.
    destruct r as [r|]; simpl; rewrite (IH sm' _ eq_refl), <- app_assoc;
      reflexivity.
Qed.

Lemma routing_loop_error name items : forall pipeline e,
  routing_loop name items pipeline = inl e <-> stream_mapping items = inl e.
Proof.
  induction items as [|[i v] items IH]; simpl; intros pipeline e.
  - split; discriminate.
  - destruct (_parse_audiostream_mapping v) as [e'|[l r]] eqn:Hp; simpl.
    + split; intros H; inversion H; reflexivity.
    + destruct r as [r|]; rewrite IH;
        destruct (stream_mapping items); simpl;
        split; intros H; inversion H; reflexivity.
Qed.

Lemma stream_mapping_keys items : forall sm,
  stream_mapping items = inr sm -> map fst sm = map fst items.
Proof.
  induction items as [|[i v] items IH]; simpl; intros sm H.
  - inversion H; reflexivity.
  - destruct (_parse_audiostream_mapping v) as [e|p]; simpl in *; [discriminate|].
    destruct (stream_mapping items) as [e|sm']; simpl in *; [discriminate|].
    inversion H; subst. simpl. f_equal. now apply IH.
Qed.

Lemma count_factory_app f p q :
  count_factory f (p ++ q) = (count_factory f p + count_factory f q)%nat.
Proof.
  unfold count_factory. now rewrite concat_app, filter_app, length_app.
Qed.

Lemma count_interleave_emitted name r :
  count_factory "interleave" (emitted name r) = 1%nat.
Proof. destruct r; reflexivity. Qed.

Lemma count_interleave_rules name rules :
  count_factory "interleave" (List.concat (map (emitted name) rules))
  = List.length rules.
Proof.
  induction rules as [|r rules IH]; simpl; [reflexivity|].
  now rewrite count_factory_app, count_interleave_emitted, IH.
Qed.

(** C2.  For a mapping whose values can all be read, the loop appends,
    for the entries in their order, exactly the text of one rule each:
    an entry with two channels gives a direct pair, whose two raw
    channels go through a queue each into inputs 0 and 1 of the one
    interleave of that stream, with no tee; an entry with one channel
    gives a duplicated mono, whose raw channel goes into one tee, the
    tee going through a queue each into inputs 0 and 1 of the one
    interleave of that stream.  There are as many interleaves as
    entries, the rules are in the order of the entries and what was
    assembled before is kept. *)
Theorem C2_one_rule_per_entry :
  forall (name : string) (items : list (Z * string)) (sm : StreamMapping)
         (pipeline : list chain),
    stream_mapping items = inr sm ->
    let rules := map rule_of sm in
    let i_ a := "i-" ++ name ++ "-" ++ Py.str a in
    let t_ a := "t-" ++ name ++ "-" ++ Py.str a in
    let aout c := Pad ("aout-" ++ name) ("src_" ++ Py.str c) in
    routing_loop name items pipeline
    = inr (pipeline ++ List.concat (map (emitted name) rules))%list
    /\ List.length rules = List.length items
    /\ map fst sm = map fst items
    /\ count_factory "interleave" (List.concat (map (emitted name) rules))
       = List.length items
    /\ (forall a l r,
          In (a, Pair l r) sm ->
          let p := emitted name (rule_of (a, Pair l r)) in
          p = pair_template name a l r
          /\ count_factory "interleave" p = 1%nat
          /\ count_factory "tee" p = 0%nat
          /\ In [Element "interleave" [("name", i_ a)]] p
          /\ queued p (aout l) (Pad (i_ a) "sink_0")
          /\ queued p (aout r) (Pad (i_ a) "sink_1"))
    /\ (forall a c,
          In (a, Single c) sm ->
          let p := emitted name (rule_of (a, Single c)) in
          p = tee_template name a c
          /\ count_factory "interleave" p = 1%nat
          /\ count_factory "tee" p = 1%nat
          /\ In [Element "interleave" [("name", i_ a)]] p
          /\ linked p (aout c) (Element "tee" [("name", t_ a)])
          /\ queued p (Pad (t_ a) "") (Pad (i_ a) "sink_0")
          /\ queued p (Pad (t_ a) "") (Pad (i_ a) "sink_1")).
Proof.
  intros name items sm pipeline H rules i_ t_ aout.
  assert (Hlen : List.length rules = List.length items).
  { unfold rules. rewrite length_map, <- (length_map fst sm),
      (stream_mapping_keys _ _ H). apply length_map. }
  split; [exact (routing_loop_spec name items sm pipeline H)|].
  split; [exact Hlen|].
  split; [exact (stream_mapping_keys _ _ H)|].
  split; [rewrite count_interleave_rules; exact Hlen|].
  split.
  - intros a l r _ p. subst p. simpl emitted.
    split; [reflexivity|]. split; [reflexivity|]. split; [reflexivity|].
    split; [simpl; auto|].
    split.
    + exists [("name", "queue-decklink-audio-" ++ name ++ "-" ++ Py.str a
                       ++ "-" ++ "left")].
      split; eexists; (split; [simpl; right; left; reflexivity|]);
        simpl; auto.
    + exists [("name", "queue-decklink-audio-" ++ name ++ "-" ++ Py.str a
                       ++ "-" ++ "right")].
      split; eexists; (split; [simpl; right; right; left; reflexivity|]);
        simpl; auto.
  - intros a c _ p. subst p. simpl emitted.
    split; [reflexivity|]. split; [reflexivity|]. split; [reflexivity|].
    split; [simpl; auto|].
    split; [|split].
    + eexists. split; [simpl; right; left; reflexivity|]. simpl. auto.
    + exists [("name", "queue-decklink-audio-" ++ name ++ "-" ++ Py.str a
                       ++ "-" ++ "left")].
      split; eexists; (split; [simpl; right; right; left; reflexivity|]);
        simpl; auto.
    + exists [("name", "queue-decklink-audio-" ++ name ++ "-" ++ Py.str a
                       ++ "-" ++ "right")].
      split; eexists;
        (split; [simpl; right; right; right; left; reflexivity|]);
        simpl; auto.
Qed.

Lemma C2_one_rule_per_entry_witness :
  routing_loop "cam" [(0, "1"); (1, "2+3")] []
  = inr (tee_template "cam" 0 1 ++ pair_template "cam" 1 2 3)%list.
Proof.
  apply (C2_one_rule_per_entry "cam" [(0, "1"); (1, "2+3")]
           [(0, Single 1); (1, Pair 2 3)] [] eq_refl).
Defined.

(** ** Construction *)

Lemma parse_audiostream_map_total cfg sec :
  _parse_audiostream_map cfg sec = inr (configured_map cfg sec).
Proof.
  unfold _parse_audiostream_map, configured_map.
  destruct (Config.section cfg sec); [|reflexivity].
  apply audiostream_map_loop_spec.
Qed.

(** The three ways [__init__] can end: the bounds check raises, the
    planner raises, or the launch description is handed to the engine. *)
Lemma init_unfold cfg d name ha hv w :
  __init__ cfg d name ha hv w =
    let m := configured_map cfg ("source." ++ name) in
    match _warn_incorrect_number_of_streams cfg m with
    | inl e => (inl e, w)
    | inr _ =>
        match _calculate_required_input_channels m with
        | inl e => (inl e, w)
        | inr t =>
            let self := configured_source cfg d name ha hv t in
            match launch_description self with
            | inl e => (inl e, w)
            | inr p => (inr self, List.app w [build_pipeline p])
            end
        end
    end.
Proof.
  unfold __init__, bindM, lift, launch_pipeline, bindM, lift, invoke, retM.
  rewrite parse_audiostream_map_total. cbv zeta.
  destruct (_warn_incorrect_number_of_streams cfg _) as [e|[]]; [reflexivity|].
  destruct (_calculate_required_input_channels _) as [e|t]; [reflexivity|].
  fold (configured_source cfg d name ha hv t).
  destruct (launch_description _); reflexivity.
Qed.

Lemma launch_description_spec self sm :
  stream_mapping (Dict.items (audiostream_map self)) = inr sm ->
  launch_description self =
    inr (video_chain self
         :: (if has_audio self
             then audio_chain self
                  :: List.concat (map (emitted (name self)) (map rule_of sm))
             else [])).
Proof.
  intros H. unfold launch_description. destruct (has_audio self); [|reflexivity].
  rewrite (routing_loop_spec _ _ _ _ H). reflexivity.
Qed.

(** Once the planner has accepted the mapping, assembling the launch
    description cannot fail. *)
Lemma init_success cfg d name ha hv w t :
  let m := configured_map cfg ("source." ++ name) in
  _warn_incorrect_number_of_streams cfg m = inr tt ->
  _calculate_required_input_channels m = inr t ->
  exists p,
    launch_description (configured_source cfg d name ha hv t) = inr p
    /\ __init__ cfg d name ha hv w
       = (inr (configured_source cfg d name ha hv t),
          List.app w [build_pipeline p]).
Proof.
  intros m Hw Hc.
  destruct (planner_accepts_readable _ _ Hc) as [sm Hs].
  pose proof (launch_description_spec
                (configured_source cfg d name ha hv t) sm Hs) as Hl.
  eexists. split; [exact Hl|].
  rewrite init_unfold. cbv zeta. fold m. rewrite Hw, Hc, Hl. reflexivity.
Qed.

Lemma streams_loop_cases n items :
  (streams_loop n items = inr tt
   /\ forall i, In i (map fst items) -> i < n)
  \/ (exists i, In i (map fst items) /\ n <= i
                /\ streams_loop n items
                   = inl (StreamIndexOutOfRangeError i n)).
Proof.
  induction items as [|[a v] items IH]; simpl.
  - left. split; [reflexivity | intros i []].
  - destruct (Z.geb_spec a n) as [Hge|Hlt].
    + right. exists a. split; [auto|]. split; [lia | reflexivity].
    + destruct IH as [[Hok Hall]|(i & Hin & Hle & Herr)].
      * left. split; [exact Hok|]. intros i [<-|Hi]; [lia | auto].
      * right. exists i. auto.
Qed.

Lemma stream_mapping_error items : forall e,
  stream_mapping items = inl e ->
  exists i v, In (i, v) items
              /\ _parse_audiostream_mapping v = inl (ValueError v)
              /\ e = MalformedMappingError v.
Proof.
  induction items as [|[a v] items IH]; simpl; intros e H; [discriminate|].
  destruct (_parse_audiostream_mapping v) as [e'|p] eqn:Hp; simpl in H.
  - inversion H; subst. destruct (parse_mapping_error _ _ Hp) as (-> & _).
    exists a, v. auto.
  - destruct (stream_mapping items) as [e'|sm]; simpl in H; [|discriminate].
    inversion H; subst. destruct (IH _ eq_refl) as (i & v' & Hin & Hv).
    exists i, v'. auto.
Qed.

(** Every way [__init__] can end, by what its mapping looks like. *)
Lemma init_cases cfg d name ha hv w :
  let m := configured_map cfg ("source." ++ name) in
  let limit := Config.mix_audiostreams cfg in
  (exists i, In i (Dict.keys m) /\ limit <= i
             /\ __init__ cfg d name ha hv w
                = (inl (StreamIndexOutOfRangeError i limit), w))
  \/ ((forall i, In i (Dict.keys m) -> i < limit)
      /\ ((exists i v, In (i, v) (Dict.items m)
                       /\ _parse_audiostream_mapping v = inl (ValueError v)
                       /\ __init__ cfg d name ha hv w
                          = (inl (MalformedMappingError v), w))
          \/ (exists sm, stream_mapping (Dict.items m) = inr sm
                         /\ 16 < maxReferenced sm
                         /\ __init__ cfg d name ha hv w
                            = (inl (ChannelCapacityExceededError
                                      (maxReferenced sm)), w))
          \/ (exists sm t p,
                stream_mapping (Dict.items m) = inr sm
                /\ _calculate_required_input_channels m = inr t
                /\ launch_description (configured_source cfg d name ha hv t)
                   = inr p
                /\ __init__ cfg d name ha hv w
                   = (inr (configured_source cfg d name ha hv t),
                      List.app w [build_pipeline p])))).
Proof.
  intros m limit.
  destruct (streams_loop_cases limit (Dict.items m))
    as [[Hok Hall]|(i & Hin & Hle & Herr)].
  - right. split; [exact Hall|].
    destruct (stream_mapping (Dict.items m)) as [e|sm] eqn:Hs.
    + left. destruct (stream_mapping_error _ _ Hs) as (i & v & Hin & Hv & ->).
      exists i, v. split; [exact Hin|]. split; [exact Hv|].
      rewrite init_unfold. cbv zeta. fold m.
      unfold _warn_incorrect_number_of_streams. fold limit. rewrite Hok.
      unfold _calculate_required_input_channels.
      apply (required_loop_error _ 0) in Hs. rewrite Hs. reflexivity.
    + right. destruct (planner_tiers m sm Hs) as [Hlow Hhigh].
      destruct (Z.le_gt_cases (maxReferenced sm) 16) as [Hn|Hn].
      * right. destruct (Hlow Hn) as (t & Ht & _).
        destruct (init_success cfg d name ha hv w t Hok Ht) as (p & Hp & Hi).
        exists sm, t, p. auto.
      * left. exists sm. split; [reflexivity|]. split; [exact Hn|].
        rewrite init_unfold. cbv zeta. fold m.
        unfold _warn_incorrect_number_of_streams. fold limit.
        rewrite Hok, (Hhigh Hn). reflexivity.
  - left. exists i. split; [exact Hin|]. split; [exact Hle|].
    rewrite init_unfold. cbv zeta. fold m.
    unfold _warn_incorrect_number_of_streams. fold limit.
    rewrite Herr. reflexivity.
Qed.

Lemma error_kinds_distinct i j :
  (forall v, MalformedMappingError v <> StreamIndexOutOfRangeError i j)
  /\ (forall n, ChannelCapacityExceededError n <> StreamIndexOutOfRangeError i j).
Proof.
  split; intros x H; unfold MalformedMappingError, StreamIndexOutOfRangeError,
    ChannelCapacityExceededError, streams_message, channels_message in H;
    simpl in H; discriminate.
Qed.

(** The bounds check raises at the first index, in the order of the
    mapping, that is not below the limit. *)
Lemma streams_loop_first n items :
  (streams_loop n items = inr tt
   /\ forall i, In i (map fst items) -> i < n)
  \/ (exists before i v after,
        items = (before ++ (i, v) :: after)%list
        /\ (forall k, In k (map fst before) -> k < n)
        /\ n <= i
        /\ streams_loop n items = inl (StreamIndexOutOfRangeError i n)).
Proof.
  induction items as [|[a v] items IH]; simpl.
  - left. split; [reflexivity | intros i []].
  - destruct (Z.geb_spec a n) as [Hge|Hlt].
    + right. exists [], a, v, items. split; [reflexivity|].
      split; [intros k []|]. split; [lia | reflexivity].
    + destruct IH as [[Hok Hall]|(before & i & v' & after & -> & Hb & Hle & He)].
      * left. split; [exact Hok|]. intros i [<-|Hi]; [lia | auto].
      * right. exists ((a, v) :: before), i, v', after.
        split; [reflexivity|]. split; [|auto].
        simpl. intros k [<-|Hk]; [lia | auto].
Qed.

(** C3.  Construction fails with the stream-index error if and only if
    some index of the mapping is at least the number of enabled streams,
    and nothing has then been handed to the engine.  The error is a
    [RuntimeError] whose message spells out an index and a limit and
    determines both; the index it reports is the first index of the
    mapping, in its order, that is not below the number of enabled
    streams, and the limit it reports is that number. *)
Theorem C3_stream_index_out_of_range :
  forall (cfg : Config.t) (deinterlacer : option string) (name : string)
         (has_audio has_video : bool) (w : engine) (m : Dict.t string),
    _parse_audiostream_map cfg ("source." ++ name) = inr m ->
    let limit := Config.mix_audiostreams cfg in
    let outcome := __init__ cfg deinterlacer name has_audio has_video w in
    ((exists i, In i (Dict.keys m) /\ limit <= i)
     <-> (exists i j, fst outcome = inl (StreamIndexOutOfRangeError i j)))
    /\ ((exists i, In i (Dict.keys m) /\ limit <= i) ->
        exists i, In i (Dict.keys m) /\ limit <= i
                  /\ outcome = (inl (StreamIndexOutOfRangeError i limit), w))
    /\ (forall i j,
          fst outcome = inl (StreamIndexOutOfRangeError i j) ->
          j = limit /\ limit <= i
          /\ exists before v after,
               Dict.items m = (before ++ (i, v) :: after)%list
               /\ forall k, In k (map fst before) -> k < limit)
    /\ (forall i j,
          StreamIndexOutOfRangeError i j
          = RuntimeError ("Mapping-Configuration for Stream 0 to "
                          ++ Py.str i ++ " found,but only "
                          ++ Py.str j ++ " enabled"))
    /\ (forall i j i' j',
          StreamIndexOutOfRangeError i j = StreamIndexOutOfRangeError i' j' ->
          i = i' /\ j = j').
Proof.
  intros cfg d name ha hv w m Hm limit outcome.
  rewrite parse_audiostream_map_total in Hm.
  assert (Hm' : m = configured_map cfg ("source." ++ name))
    by (inversion Hm; reflexivity).
  subst m. clear Hm. set (m := configured_map cfg ("source." ++ name)) in *.
  assert (Hfwd : (exists i, In i (Dict.keys m) /\ limit <= i) ->
                 exists i, In i (Dict.keys m) /\ limit <= i
                   /\ outcome = (inl (StreamIndexOutOfRangeError i limit), w)).
  { intros (i & Hin & Hle).
    destruct (init_cases cfg d name ha hv w) as [Hbad|[Hall _]].
    - exact Hbad.
    - specialize (Hall i Hin). unfold limit in Hle. lia. }
  assert (Hback : (exists i j,
                      fst outcome = inl (StreamIndexOutOfRangeError i j)) ->
                  exists i, In i (Dict.keys m) /\ limit <= i).
  { intros (i & j & Ho). unfold outcome in Ho.
    destruct (init_cases cfg d name ha hv w)
      as [(i' & Hin & Hle & _)
         |[_ [(i' & v & _ & _ & Hi)|[(sm & _ & _ & Hi)|(sm & t & p & _ & _ & _ & Hi)]]]].
    + exists i'. auto.
    + rewrite Hi in Ho. simpl in Ho.
      assert (He : MalformedMappingError v = StreamIndexOutOfRangeError i j)
        by congruence.
      now apply (proj1 (error_kinds_distinct i j)) in He.
    + rewrite Hi in Ho. simpl in Ho.
      assert (He : ChannelCapacityExceededError (maxReferenced sm)
                   = StreamIndexOutOfRangeError i j) by congruence.
      now apply (proj2 (error_kinds_distinct i j)) in He.
    + rewrite Hi in Ho. discriminate. }
  assert (Hinj : forall i j i' j',
             StreamIndexOutOfRangeError i j = StreamIndexOutOfRangeError i' j' ->
             i = i' /\ j = j').
  { intros i j i' j' He. unfold StreamIndexOutOfRangeError in He.
    apply streams_message_inj. congruence. }
  split; [split; [|exact Hback]|].
  { intros H. destruct (Hfwd H) as (i & _ & _ & Ho).
    exists i, limit. now rewrite Ho. }
  split; [exact Hfwd|]. split; [|split; [reflexivity | exact Hinj]].
  intros i j Ho.
  destruct (streams_loop_first limit (Dict.items m))
    as [[_ Hall]|(before & i0 & v & after & Hitems & Hb & Hle & Herr)].
  - destruct (Hback (ex_intro _ i (ex_intro _ j Ho))) as (k & Hk & Hlk).
    specialize (Hall k Hk). lia.
  - assert (Hout : outcome = (inl (StreamIndexOutOfRangeError i0 limit), w)).
    { unfold outcome. rewrite init_unfold. cbv zeta. fold m.
      unfold _warn_incorrect_number_of_streams. fold limit.
      rewrite Herr. reflexivity. }
    rewrite Hout in Ho. simpl in Ho.
    assert (He : StreamIndexOutOfRangeError i0 limit
                 = StreamIndexOutOfRangeError i j) by congruence.
    destruct (Hinj _ _ _ _ He) as [<- <-].
    split; [reflexivity|]. split; [exact Hle|].
    exists before, v, after. auto.
Qed.

(** The example of the specification: the mapping {5: "0"} with two
    enabled streams.  The message names the index 5 and the limit 2. *)
Lemma C3_stream_index_out_of_range_witness :
  let cfg :=
    {| Config.sections := [("source.cam", [("audiostream[5]", "0")])];
       Config.mix_audiostreams := 2 |} in
  (exists i, In i [5] /\ 2 <= i
             /\ __init__ cfg None "cam" true true []
                = (inl (StreamIndexOutOfRangeError i 2), []))
  /\ (forall i j,
        fst (__init__ cfg None "cam" true true [])
        = inl (StreamIndexOutOfRangeError i j) ->
        j = 2 /\ 2 <= i
        /\ exists before v after,
             [(5, "0")] = (before ++ (i, v) :: after)%list
             /\ forall k, In k (map fst before) -> k < 2)
  /\ StreamIndexOutOfRangeError 5 2
     = RuntimeError
         "Mapping-Configuration for Stream 0 to 5 found,but only 2 enabled".
Proof.
  intros cfg.
  destruct (C3_stream_index_out_of_range cfg None "cam" true true []
              [(5, "0")] eq_refl) as (_ & Hfwd & Hrep & Hmsg & _).
  split; [|split].
  - apply Hfwd. exists 5. split; [left; reflexivity | simpl; lia].
  - exact Hrep.
  - exact (Hmsg 5 2).
Defined.

Example stream_index_example :
  __init__
    {| Config.sections := [("source.cam", [("audiostream[5]", "0")])];
       Config.mix_audiostreams := 2 |} None "cam" true true []
  = (inl (RuntimeError
            "Mapping-Configuration for Stream 0 to 5 found,but only 2 enabled"),
     []).
Proof. reflexivity. Qed.

(** C9.  Whenever construction raises, nothing has been handed to the
    engine: the trace of engine calls is the one construction started
    with.  What it raises is one of the three errors. *)
Theorem C9_errors_precede_pipeline :
  forall (cfg : Config.t) (deinterlacer : option string) (name : string)
         (has_audio has_video : bool) (w w' : engine) (e : exn),
    __init__ cfg deinterlacer name has_audio has_video w = (inl e, w') ->
    w' = w
    /\ ((exists v, e = MalformedMappingError v)
        \/ (exists i, e = StreamIndexOutOfRangeError
                            i (Config.mix_audiostreams cfg))
        \/ (exists n, e = ChannelCapacityExceededError n)).
Proof.
  intros cfg d name ha hv w w' e H.
  destruct (init_cases cfg d name ha hv w)
    as [(i & _ & _ & Hi)
       |[_ [(i & v & _ & _ & Hi)|[(sm & _ & _ & Hi)|(sm & t & p & _ & _ & _ & Hi)]]]];
    rewrite Hi in H; inversion H; subst; (split; [reflexivity|]); eauto.
Qed.

Lemma C9_errors_precede_pipeline_witness :
  let cfg :=
    {| Config.sections := [("source.cam", [("audiostream[0]", "abc")])];
       Config.mix_audiostreams := 2 |} in
  ([] : engine) = []
  /\ ((exists v, ValueError "abc" = MalformedMappingError v)
      \/ (exists i, ValueError "abc" = StreamIndexOutOfRangeError i 2)
      \/ (exists n, ValueError "abc" = ChannelCapacityExceededError n)).
Proof.
  intros cfg.
  apply (C9_errors_precede_pipeline cfg None "cam" true true [] []
           (ValueError "abc")).
  reflexivity.
Defined.

(** C10.  [audio_channels] is 1 for the empty mapping and the number of
    entries otherwise; it is never 0. *)
Theorem C10_audio_channels :
  forall self : DeckLinkAVSource,
    (audiostream_map self = Dict.empty -> audio_channels self = 1)
    /\ (audiostream_map self <> Dict.empty ->
        audio_channels self
        = Z.of_nat (List.length (Dict.items (audiostream_map self))))
    /\ audio_channels self <> 0
    /\ 1 <= audio_channels self.
Proof.
  intros self. unfold audio_channels, Dict.len, Dict.items, Dict.empty.
  destruct (audiostream_map self) as [|e m]; simpl List.length.
  - simpl. repeat split; try lia. congruence.
  - destruct (Z.eqb_spec (Z.of_nat (S (List.length m))) 0) as [H0|H0]; [lia|].
    repeat split; try lia. discriminate.
Qed.

Lemma C10_audio_channels_witness :
  audio_channels
    (configured_source
       {| Config.sections := [("source.cam", [("audiostream[0]", "0+1");
                                              ("audiostream[1]", "2")])];
          Config.mix_audiostreams := 2 |} None "cam" true true 8)
  = 2.
Proof.
  apply (C10_audio_channels
           (configured_source
              {| Config.sections := [("source.cam", [("audiostream[0]", "0+1");
                                                     ("audiostream[1]", "2")])];
                 Config.mix_audiostreams := 2 |} None "cam" true true 8)).
  discriminate.
Defined.

(** ** Which values the value parser accepts *)

Lemma append_empty_r s : s ++ "" = s.
Proof. induction s as [|c s IH]; simpl; congruence. Qed.

Lemma pattern_pair_inv v :
  pattern_pair v = true ->
  exists l r, v = l ++ "+" ++ r
              /\ is_natural l = true /\ is_natural r = true
              /\ re_match_pair v = Some (l, r).
Proof.
  unfold pattern_pair. intros H.
  destruct (Py.span_digits v) as [l rest] eqn:Hs.
  destruct rest as [|c r]; [discriminate|].
  apply andb_true_iff in H. destruct H as [H Hr].
  apply andb_true_iff in H. destruct H as [Hc Hl].
  apply Ascii.eqb_eq in Hc. subst c.
  apply span_digits_spec in Hs. destruct Hs as (-> & _ & _).
  exists l, r. split; [reflexivity|]. split; [exact Hl|]. split; [exact Hr|].
  pose proof (re_match_pair_intro l r "" Hl Hr I) as Hm.
  now rewrite append_empty_r in Hm.
Qed.

Lemma pattern_single_inv v :
  pattern_single v = true ->
  re_match_pair v = None /\ Py.parse_int v = Some (decimal v).
Proof.
  unfold pattern_single. intros H. split; [|apply (parse_int_natural v H)].
  destruct (is_natural_inv v H) as (c & s & -> & Hc & Hd).
  unfold re_match_pair.
  rewrite <- (append_empty_r (String c s)), span_digits_app;
    [reflexivity | exact H | exact I].
Qed.

Lemma stream_mapping_readable items : forall sm,
  stream_mapping items = inr sm ->
  forall i v, In (i, v) items ->
              exists p, _parse_audiostream_mapping v = inr p.
Proof.
  induction items as [|[a x] items IH]; simpl; intros sm Hs i v Hin.
  - destruct Hin.
  - destruct (_parse_audiostream_mapping x) as [e|q] eqn:Hx;
      simpl in Hs; [discriminate|].
    destruct (stream_mapping items) as [e|sm'];
      simpl in Hs; [discriminate|].
    destruct Hin as [Heq|Hin].
    + inversion Heq; subst. eauto.
    + apply (IH sm' eq_refl i v Hin).
Qed.

(** C4, as the code has it.  A value of either pattern is accepted: a
    pair [<L>+<R>] is read as the two numbers, a single [<N>] as the
    number.  The parser rejects a value exactly when the value neither
    begins with [<L>+<R>] nor is a literal that [int()] reads; a
    rejected value is of neither pattern, and the exception is
    [int()]'s [ValueError], which carries the value (and no key).
    Construction fails with it when no stream index is out of range and
    some value of the mapping is rejected. *)
Theorem C4_value_parser_acceptance :
  (forall v, pattern_pair v = true ->
     exists l r, v = l ++ "+" ++ r
                 /\ _parse_audiostream_mapping v
                    = inr (decimal l, Some (decimal r)))
  /\ (forall v, pattern_single v = true ->
        _parse_audiostream_mapping v = inr (decimal v, None))
  /\ (forall v,
        (exists e, _parse_audiostream_mapping v = inl e)
        <-> (re_match_pair v = None /\ Py.parse_int v = None))
  /\ (forall v e,
        _parse_audiostream_mapping v = inl e ->
        e = MalformedMappingError v
        /\ pattern_pair v = false /\ pattern_single v = false)
  /\ (forall cfg deinterlacer name has_audio has_video w m,
        _parse_audiostream_map cfg ("source." ++ name) = inr m ->
        (forall i, In i (Dict.keys m) -> i < Config.mix_audiostreams cfg) ->
        (exists i v e, In (i, v) (Dict.items m)
                       /\ _parse_audiostream_mapping v = inl e) ->
        exists i v,
          In (i, v) (Dict.items m)
          /\ _parse_audiostream_mapping v = inl (MalformedMappingError v)
          /\ __init__ cfg deinterlacer name has_audio has_video w
             = (inl (MalformedMappingError v), w)).
Proof.
  split; [|split; [|split; [|split]]].
  - intros v H. destruct (pattern_pair_inv v H) as (l & r & Hv & _ & _ & Hm).
    exists l, r. split; [exact Hv|]. apply (parse_mapping_of_pair _ _ _ Hm).
  - intros v H. destruct (pattern_single_inv v H) as [Hm Hi].
    now rewrite (parse_mapping_of_single _ Hm), Hi.
  - intros v. split.
    + intros [e He]. apply (parse_mapping_error _ _ He).
    + intros [Hm Hi]. rewrite (parse_mapping_of_single _ Hm), Hi. eauto.
  - intros v e He. destruct (parse_mapping_error _ _ He) as (-> & Hm & Hi).
    split; [reflexivity|]. split.
    + destruct (pattern_pair v) eqn:Hp; [|reflexivity].
      destruct (pattern_pair_inv v Hp) as (l & r & _ & _ & _ & Hm').
      congruence.
    + destruct (pattern_single v) eqn:Hp; [|reflexivity].
      destruct (pattern_single_inv v Hp) as [_ Hi']. congruence.
  - intros cfg d name ha hv w m Hm Hall (i & v & e & Hin & He).
    rewrite parse_audiostream_map_total in Hm.
    assert (Hm' : m = configured_map cfg ("source." ++ name))
      by (inversion Hm; reflexivity).
    subst m. clear Hm.
    destruct (init_cases cfg d name ha hv w)
      as [(i' & Hin' & Hle & _)
         |[_ [(i' & v' & Hin' & Hv' & Hi)|[(sm & Hs & _)|(sm & t & p & Hs & _)]]]].
    + specialize (Hall i' Hin'). lia.
    + exists i', v'. auto.
    + destruct (stream_mapping_readable _ _ Hs _ _ Hin) as [q Hq]. congruence.
    + destruct (stream_mapping_readable _ _ Hs _ _ Hin) as [q Hq]. congruence.
Qed.

Lemma C4_value_parser_acceptance_witness :
  _parse_audiostream_mapping "2+3" = inr (2, Some 3)
  /\ _parse_audiostream_mapping "7" = inr (7, None)
  /\ exists i v,
       In (i, v) [(0, "abc")]
       /\ _parse_audiostream_mapping v = inl (MalformedMappingError v)
       /\ __init__
            {| Config.sections := [("source.cam", [("audiostream[0]", "abc")])];
               Config.mix_audiostreams := 2 |} None "cam" true true []
          = (inl (MalformedMappingError v), []).
Proof.
  destruct C4_value_parser_acceptance as (Hpair & Hsingle & _ & _ & Hinit).
  split; [|split].
  - destruct (Hpair "2+3" eq_refl) as (l & r & _ & _). reflexivity.
  - apply (Hsingle "7" eq_refl).
  - apply (Hinit
             {| Config.sections := [("source.cam", [("audiostream[0]", "abc")])];
                Config.mix_audiostreams := 2 |} None "cam" true true []
             [(0, "abc")] eq_refl).
    + intros i [<-|[]]. simpl. lia.
    + exists 0, "abc", (ValueError "abc"). split; [left; reflexivity|reflexivity].
Defined.

(** The value [-5] is of neither pattern, yet the parser reads it as the
    single channel -5 and a source whose mapping is {0: "-5"} is
    constructed and its pipeline built, without any error. *)
Lemma C4_signed_value_is_accepted :
  pattern_pair "-5" = false
  /\ pattern_single "-5" = false
  /\ _parse_audiostream_mapping "-5" = inr (-5, None)
  /\ exists self p,
       __init__
         {| Config.sections := [("source.cam", [("audiostream[0]", "-5")])];
            Config.mix_audiostreams := 1 |} None "cam" true true []
       = (inr self, [build_pipeline p]).
Proof.
  split; [reflexivity|]. split; [reflexivity|]. split; [reflexivity|].
  eexists. eexists. vm_compute. reflexivity.
Qed.

(** ** The fallback *)

Lemma count_factory_cons f c p :
  count_factory f (c :: p) = (count_factory f [c] + count_factory f p)%nat.
Proof. exact (count_factory_app f [c] p). Qed.

Lemma count_factory_video_chain f self :
  f <> "decklinkvideosrc" -> f <> "videoconvert" -> f <> "videoscale" ->
  f <> "videorate" -> f <> "fakesink" ->
  count_factory f [video_chain self] = 0%nat.
Proof.
  intros H1 H2 H3 H4 H5. unfold count_factory, video_chain. simpl.
  apply String.eqb_neq in H1, H2, H3, H4, H5.
  rewrite H1. destruct (has_video self); simpl.
  - now rewrite H2, H3, H4.
  - now rewrite H5.
Qed.

(** C5.  With an empty mapping construction succeeds whatever the number
    of enabled streams: the fallback flag is set, two input channels are
    required, there is no routing rule and the loop appends nothing; the
    audio port of stream 0 is the element [aout-<name>] itself, and when
    the source has audio that element is the capture element, without a
    [channels] property, with no deinterleave, tee or interleave
    anywhere in the description. *)
Theorem C5_fallback_for_empty_mapping :
  forall (cfg : Config.t) (deinterlacer : option string) (name : string)
         (has_audio has_video : bool) (w : engine),
    _parse_audiostream_map cfg ("source." ++ name) = inr Dict.empty ->
    exists self p,
      __init__ cfg deinterlacer name has_audio has_video w
      = (inr self, List.app w [build_pipeline p])
      /\ fallback_default self = true
      /\ required_input_channels self = 2
      /\ routing_plan self = inr []
      /\ routing_loop name (Dict.items (audiostream_map self)) [] = inr []
      /\ build_audioport self 0 = Some ("aout-" ++ name ++ ".")
      /\ p = video_chain self
             :: (if has_audio
                 then [[Element "decklinkaudiosrc"
                          [("device-number", device self);
                           ("connection", aconn self);
                           ("name", "aout-" ++ name)]]]
                 else [])
      /\ count_factory "deinterleave" p = 0%nat
      /\ count_factory "tee" p = 0%nat
      /\ count_factory "interleave" p = 0%nat.
Proof.
  intros cfg d name ha hv w Hm.
  rewrite parse_audiostream_map_total in Hm.
  assert (Hm' : configured_map cfg ("source." ++ name) = [])
    by (inversion Hm as [H0]; exact H0).
  clear Hm.
  assert (Hw : _warn_incorrect_number_of_streams cfg
                 (configured_map cfg ("source." ++ name)) = inr tt)
    by (rewrite Hm'; reflexivity).
  assert (Hc : _calculate_required_input_channels
                 (configured_map cfg ("source." ++ name)) = inr 2)
    by (rewrite Hm'; reflexivity).
  destruct (init_success cfg d name ha hv w 2 Hw Hc) as (p & Hp & Hi).
  exists (configured_source cfg d name ha hv 2), p.
  split; [exact Hi|].
  assert (Hmap : audiostream_map (configured_source cfg d name ha hv 2) = [])
    by exact Hm'.
  assert (Hfb : fallback_default (configured_source cfg d name ha hv 2) = true)
    by (change (fallback_default (configured_source cfg d name ha hv 2))
          with (Dict.len (configured_map cfg ("source." ++ name)) =? 0);
        rewrite Hm'; reflexivity).
  split; [exact Hfb|]. split; [reflexivity|].
  split; [unfold routing_plan; rewrite Hmap; reflexivity|].
  split; [rewrite Hmap; reflexivity|].
  split; [unfold build_audioport; rewrite Hfb; reflexivity|].
  assert (Hpe : p = video_chain (configured_source cfg d name ha hv 2)
                    :: (if ha
                        then [[Element "decklinkaudiosrc"
                                 [("device-number",
                                   device (configured_source cfg d name ha hv 2));
                                  ("connection",
                                   aconn (configured_source cfg d name ha hv 2));
                                  ("name", "aout-" ++ name)]]]
                        else [])).
  { rewrite (launch_description_spec _ [] ) in Hp by (rewrite Hmap; reflexivity).
    inversion Hp as [Hp']. simpl has_audio. destruct ha; [|reflexivity].
    unfold audio_chain. rewrite Hfb. reflexivity. }
  split; [exact Hpe|].
  rewrite Hpe.
  repeat split;
    rewrite count_factory_cons, count_factory_video_chain by discriminate;
    destruct ha; reflexivity.
Qed.

Lemma C5_fallback_for_empty_mapping_witness :
  let cfg :=
    {| Config.sections := [("source.cam", [("devicenumber", "3")])];
       Config.mix_audiostreams := 0 |} in
  exists self p,
    __init__ cfg None "cam" true true [] = (inr self, [build_pipeline p])
    /\ fallback_default self = true
    /\ required_input_channels self = 2
    /\ build_audioport self 0 = Some "aout-cam.".
Proof.
  intros cfg.
  destruct (C5_fallback_for_empty_mapping cfg None "cam" true true [] eq_refl)
    as (self & p & Hi & Hf & Hr & _ & _ & Hb & _).
  exists self, p. auto.
Defined.

(** ** Determinism and restart *)

Lemma restart_unfold self w p :
  launch_description self = inr p ->
  restart self w = (inr tt, List.app w [set_state_NULL; build_pipeline p]).
Proof.
  intros H. unfold restart, launch_pipeline, bindM, invoke, lift.
  rewrite H, <- app_assoc. reflexivity.
Qed.

(** C8.  The routing rules depend on nothing but the mapping, and the
    text the loop emits on nothing but the mapping and the name of the
    source: two sources that agree on these have the same rules, of the
    same kinds, with the same channels, in the same order.  After a
    successful construction, [restart] stops the engine and hands it the
    very description construction handed it, made of the same rules; so
    does constructing again from the same configuration. *)
Theorem C8_plan_is_reproducible :
  (forall self1 self2 : DeckLinkAVSource,
     audiostream_map self1 = audiostream_map self2 ->
     routing_plan self1 = routing_plan self2
     /\ (name self1 = name self2 ->
         routing_loop (name self1) (Dict.items (audiostream_map self1)) []
         = routing_loop (name self2) (Dict.items (audiostream_map self2)) []))
  /\ (forall (cfg : Config.t) (deinterlacer : option string) (name : string)
             (has_audio has_video : bool) (w w' : engine)
             (self : DeckLinkAVSource),
        __init__ cfg deinterlacer name has_audio has_video w = (inr self, w') ->
        exists p rules,
          w' = List.app w [build_pipeline p]
          /\ routing_plan self = inr rules
          /\ p = video_chain self
                 :: (if has_audio
                     then audio_chain self
                          :: List.concat (map (emitted name) rules)
                     else [])
          /\ launch_description self = inr p
          /\ restart self w'
             = (inr tt, List.app w' [set_state_NULL; build_pipeline p])
          /\ forall w2,
               __init__ cfg deinterlacer name has_audio has_video w2
               = (inr self, List.app w2 [build_pipeline p])).
Proof.
  split.
  - intros self1 self2 Hm. unfold routing_plan. rewrite Hm.
    split; [reflexivity|]. intros Hn. now rewrite Hn.
  - intros cfg d name ha hv w w' self H.
    destruct (init_cases cfg d name ha hv w)
      as [(i & _ & _ & Hi)
         |[Hall [(i & v & _ & _ & Hi)|[(sm & _ & _ & Hi)
                                      |(sm & t & p & Hs & Ht & Hp & Hi)]]]];
      rewrite Hi in H; inversion H; subst; clear H.
    exists p, (map rule_of sm).
    split; [reflexivity|].
    assert (Hs' : stream_mapping
                    (Dict.items (audiostream_map
                                   (configured_source cfg d name ha hv t)))
                  = inr sm) by exact Hs.
    split; [unfold routing_plan; rewrite Hs'; reflexivity|].
    split.
    { rewrite (launch_description_spec _ sm Hs') in Hp.
      inversion Hp. reflexivity. }
    split; [exact Hp|].
    split; [exact (restart_unfold _ _ _ Hp)|].
    intros w2.
    assert (Hw : _warn_incorrect_number_of_streams cfg
                   (configured_map cfg ("source." ++ name)) = inr tt).
    { destruct (streams_loop_cases (Config.mix_audiostreams cfg)
                  (Dict.items (configured_map cfg ("source." ++ name))))
        as [[Hok _]|(i & Hin & Hle & _)]; [exact Hok|].
      specialize (Hall i Hin). lia. }
    destruct (init_success cfg d name ha hv w2 t Hw Ht) as (p' & Hp' & Hi').
    rewrite Hi'. congruence.
Qed.

Lemma C8_plan_is_reproducible_witness :
  let cfg :=
    {| Config.sections :=
         [("source.cam", [("audiostream[0]", "1"); ("audiostream[1]", "2+3")])];
       Config.mix_audiostreams := 2 |} in
  exists self p,
    __init__ cfg None "cam" true false [] = (inr self, [build_pipeline p])
    /\ routing_plan self = inr [DuplicatedMono 0 1; DirectPair 1 2 3]
    /\ restart self [build_pipeline p]
       = (inr tt, [build_pipeline p; set_state_NULL; build_pipeline p]).
Proof.
  intros cfg.
  edestruct (proj2 C8_plan_is_reproducible cfg None "cam" true false [])
    as (p & rules & Hw' & Hplan & _ & _ & Hrestart & Hagain).
  - lazy. reflexivity.
  - eexists. exists p. split; [apply (Hagain [])|].
    split; [reflexivity|].
    rewrite Hw' in Hrestart. exact Hrestart.
Defined.

(** * Further properties of the code *)

(** ** Rounding to a device tier *)

(** X1.  [_round_decklink_channels] fails exactly above 16; a result is
    one of 2, 8, 16, is not below the argument and is left unchanged by
    rounding again; a larger request never gets a smaller tier. *)
Theorem round_decklink_channels_monotone :
  forall n : Z,
    ((exists e, _round_decklink_channels n = inl e) <-> 16 < n)
    /\ (forall t,
          _round_decklink_channels n = inr t ->
          In t tiers /\ n <= t /\ _round_decklink_channels t = inr t)
    /\ (forall m t u,
          n <= m ->
          _round_decklink_channels n = inr t ->
          _round_decklink_channels m = inr u ->
          t <= u).
Proof.
  intros n. unfold _round_decklink_channels, tiers, raise, ret.
  split; [|split].
  - destruct (Z.gtb_spec n 16); [split; [lia | eauto]|].
    split; [|lia]. intros [e He].
    destruct (n >? 8); [discriminate|]. destruct (n >? 2); discriminate.
  - intros t H.
    destruct (Z.gtb_spec n 16); [discriminate|].
    destruct (Z.gtb_spec n 8); [|destruct (Z.gtb_spec n 2)];
      inversion H; subst; simpl; (split; [tauto|]); (split; [lia|]);
      reflexivity.
  - intros m t u Hle Hn Hm.
    destruct (Z.gtb_spec n 16); [discriminate|].
    destruct (Z.gtb_spec m 16); [discriminate|].
    destruct (Z.gtb_spec n 8); destruct (Z.gtb_spec m 8);
      destruct (Z.gtb_spec n 2); destruct (Z.gtb_spec m 2);
      inversion Hn; inversion Hm; subst; lia.
Qed.

Lemma round_decklink_channels_monotone_witness :
  In 8 tiers /\ 3 <= 8 /\ _round_decklink_channels 8 = inr 8.
Proof.
  apply (proj1 (proj2 (round_decklink_channels_monotone 3)) 8).
  reflexivity.
Defined.

(** ** Which keys and values are recognised *)

(** X2.  A key is recognised exactly when it begins with the word
    audiostream, an opening bracket, one or more digits and a closing
    bracket; whatever follows is not looked at.  The entry is stored under the decimal value of the
    digits, and a key that is not recognised leaves the mapping as it
    is. *)
Theorem audiostream_key_recognition :
  forall key : string,
    (forall g,
       re_match_audiostream key = Some g
       <-> (is_natural g = true
            /\ exists rest, key = "audiostream[" ++ g ++ "]" ++ rest))
    /\ (forall value d,
          audiostream_map_loop [(key, value)] d
          = inr (match re_match_audiostream key with
                 | Some g => Dict.set d (decimal g) value
                 | None => d
                 end)).
Proof.
  intros key. split.
  - intros g. split; [apply re_match_audiostream_group|].
    intros (Hg & rest & ->). unfold re_match_audiostream.
    rewrite strip_prefix_app.
    rewrite (span_digits_app g ("]" ++ rest));
      [|destruct g; [discriminate | exact Hg] | reflexivity].
    destruct g as [|c g]; [discriminate|]. reflexivity.
  - intros value d. rewrite audiostream_map_loop_spec.
    unfold recognised. simpl.
    destruct (re_match_audiostream key); reflexivity.
Qed.

Lemma audiostream_key_recognition_witness :
  re_match_audiostream "audiostream[07]-spare" = Some "07".
Proof.
  apply (proj1 (audiostream_key_recognition "audiostream[07]-spare")).
  split; [reflexivity|]. exists "-spare". reflexivity.
Defined.

(** X3.  The value parser returns two channels exactly for a value that
    begins with digits, [+] and digits, the second run of digits taken
    as long as it goes; what follows is not looked at, and the channels
    are the decimal values of the two runs. *)
Theorem pair_value_recognition :
  forall (v : string) (l r : Z),
    _parse_audiostream_mapping v = inr (l, Some r)
    <-> exists g1 g2 rest,
          v = g1 ++ "+" ++ g2 ++ rest
          /\ is_natural g1 = true /\ is_natural g2 = true
          /\ stops_digits rest
          /\ l = decimal g1 /\ r = decimal g2.
Proof.
  intros v l r. split.
  - intros H. destruct (re_match_pair v) as [[g1 g2]|] eqn:Hm.
    + destruct (parse_mapping_of_pair _ _ _ Hm) as (Hp & _).
      rewrite Hp in H. inversion H; subst.
      destruct (re_match_pair_groups _ _ _ Hm) as (H1 & H2 & rest & Hv & Hs).
      exists g1, g2, rest. auto 7.
    + rewrite (parse_mapping_of_single _ Hm) in H.
      destruct (Py.parse_int v); discriminate.
  - intros (g1 & g2 & rest & -> & H1 & H2 & Hs & -> & ->).
    apply (parse_mapping_of_pair _ _ _ (re_match_pair_intro _ _ _ H1 H2 Hs)).
Qed.

Lemma pair_value_recognition_witness :
  _parse_audiostream_mapping "4+11 (stage left)" = inr (4, Some 11).
Proof.
  apply (proj2 (pair_value_recognition "4+11 (stage left)" 4 11)).
  exists "4", "11", " (stage left)". repeat split; reflexivity.
Defined.

(** X4.  A single channel may carry a sign: for digits [g] the values
    [-g] and [+g] are read as the single channels [- g] and [g]. *)
Theorem signed_single_value :
  forall g : string,
    is_natural g = true ->
    _parse_audiostream_mapping ("-" ++ g) = inr (- decimal g, None)
    /\ _parse_audiostream_mapping ("+" ++ g) = inr (decimal g, None).
Proof.
  intros g Hg.
  destruct (is_natural_inv g Hg) as (c & s & -> & Hc & Hd).
  assert (Hu : Py.int_unsigned (String c s) = Some (decimal (String c s))).
  { unfold Py.int_unsigned. rewrite Hc, (int_tail_digits s _ Hd). reflexivity. }
  split.
  - rewrite parse_mapping_of_single by reflexivity.
    unfold Py.parse_int. simpl Py.lstrip. cbv iota beta.
    replace (Ascii.eqb "-" "+") with false by reflexivity.
    replace (Ascii.eqb "-" "-") with true by reflexivity.
    rewrite Hu. reflexivity.
  - rewrite parse_mapping_of_single by reflexivity.
    unfold Py.parse_int. simpl Py.lstrip. cbv iota beta.
    replace (Ascii.eqb "+" "+") with true by reflexivity.
    rewrite Hu. reflexivity.
Qed.

Lemma signed_single_value_witness :
  _parse_audiostream_mapping "-12" = inr (-12, None).
Proof.
  apply (proj1 (signed_single_value "12" eq_refl)).
Defined.

(** ** The order and the indices of the mapping *)

Lemma dict_keys_set_add {V} (d : Dict.t V) k v :
  Dict.keys (Dict.set d k v) = add_key (Dict.keys d) k.
Proof.
  unfold Dict.keys, add_key. induction d as [|[k0 v0] d IH]; simpl.
  - reflexivity.
  - rewrite (Z.eqb_sym k k0). destruct (Z.eqb_spec k0 k) as [->|Hne]; simpl.
    + reflexivity.
    + rewrite IH. destruct (existsb (Z.eqb k) (map fst d)); reflexivity.
Qed.

Lemma fold_assign_keys l : forall d,
  Dict.keys (fold_left assign l d) = fold_left add_key (map fst l) (Dict.keys d).
Proof.
  induction l as [|e l IH]; simpl; intros d; [reflexivity|].
  rewrite IH. unfold assign at 1. now rewrite dict_keys_set_add.
Qed.

Lemma add_key_In seen k i : In i (add_key seen k) <-> i = k \/ In i seen.
Proof.
  unfold add_key. destruct (existsb (Z.eqb k) seen) eqn:He.
  - apply existsb_exists in He. destruct He as (x & Hx & Hk).
    apply Z.eqb_eq in Hk. subst x. intuition (subst; auto).
  - rewrite in_app_iff. simpl. intuition.
Qed.

Lemma fold_add_key_In l : forall seen i,
  In i (fold_left add_key l seen) <-> In i l \/ In i seen.
Proof.
  induction l as [|k l IH]; simpl; intros seen i; [tauto|].
  rewrite IH, add_key_In. intuition.
Qed.

Lemma recognised_nonneg kvs i : In i (map fst (recognised kvs)) -> 0 <= i.
Proof.
  unfold recognised. rewrite in_map_iff. intros ([k v] & <- & Hin).
  apply in_flat_map in Hin. destruct Hin as ([key value] & _ & Hin).
  simpl in Hin. destruct (re_match_audiostream key) as [g|] eqn:Hm; [|destruct Hin].
  destruct Hin as [Heq|[]]. inversion Heq; subst. simpl.
  apply parse_int_natural. apply (re_match_audiostream_group _ _ Hm).
Qed.

(** X5.  The entries of the mapping stand in the order in which their
    indices first occur among the recognised keys of the section (a
    later key for the same index changes the value, not the place); the
    indices are those the recognised keys name, and none is negative. *)
Theorem mapping_order_first_occurrence :
  forall (cfg : Config.t) (config_section : string) kvs,
    Config.section cfg config_section = Some kvs ->
    exists m,
      _parse_audiostream_map cfg config_section = inr m
      /\ Dict.keys m = first_occurrences (map fst (recognised kvs))
      /\ (forall i, In i (Dict.keys m) <-> In i (map fst (recognised kvs)))
      /\ (forall i, In i (Dict.keys m) -> 0 <= i).
Proof.
  intros cfg sec kvs H. unfold _parse_audiostream_map. rewrite H.
  rewrite audiostream_map_loop_spec. eexists. split; [reflexivity|].
  assert (Hk : Dict.keys (fold_left assign (recognised kvs) Dict.empty)
               = first_occurrences (map fst (recognised kvs)))
    by apply fold_assign_keys.
  split; [exact Hk|].
  assert (Hin : forall i,
             In i (Dict.keys (fold_left assign (recognised kvs) Dict.empty))
             <-> In i (map fst (recognised kvs))).
  { intros i. rewrite Hk. unfold first_occurrences.
    rewrite fold_add_key_In. simpl. tauto. }
  split; [exact Hin|].
  intros i Hi. apply (recognised_nonneg kvs). now apply Hin.
Qed.

Lemma mapping_order_first_occurrence_witness :
  exists m,
    _parse_audiostream_map
      {| Config.sections :=
           [("source.cam", [("audiostream[3]", "0"); ("audiostream[1]", "2");
                            ("audiostream[03]", "4+5")])];
         Config.mix_audiostreams := 4 |} "source.cam" = inr m
    /\ Dict.keys m = [3; 1].
Proof.
  destruct (mapping_order_first_occurrence
              {| Config.sections :=
                   [("source.cam", [("audiostream[3]", "0");
                                    ("audiostream[1]", "2");
                                    ("audiostream[03]", "4+5")])];
                 Config.mix_audiostreams := 4 |} "source.cam" _ eq_refl)
    as (m & Hm & Hk & _).
  exists m. split; [exact Hm | exact Hk].
Defined.

(** ** What holds of every constructed source *)

Lemma configured_map_keys cfg sec :
  NoDup (Dict.keys (configured_map cfg sec))
  /\ forall i, In i (Dict.keys (configured_map cfg sec)) -> 0 <= i.
Proof.
  unfold configured_map. destruct (Config.section cfg sec) as [kvs|].
  - split; [apply fold_assign_NoDup; constructor|].
    intros i Hi. rewrite fold_assign_keys in Hi.
    apply fold_add_key_In in Hi. destruct Hi as [Hi|[]].
    now apply (recognised_nonneg kvs).
  - split; [constructor | intros i []].
Qed.

(** X6.  A source that has been constructed carries the name and flags
    it was given and the mapping of its section; its fallback flag is
    set exactly when the mapping is empty; its channel count is the
    planner's for that mapping and is 2, 8 or 16; no index occurs
    twice, every index is at least 0 and below the number of enabled
    streams, and every value of the mapping can be read. *)
Theorem constructed_source_invariants :
  forall (cfg : Config.t) (deinterlacer : option string) (name_ : string)
         (has_audio_ has_video_ : bool) (w w' : engine)
         (self : DeckLinkAVSource),
    __init__ cfg deinterlacer name_ has_audio_ has_video_ w = (inr self, w') ->
    name self = name_ /\ has_audio self = has_audio_
    /\ has_video self = has_video_
    /\ _parse_audiostream_map cfg ("source." ++ name_)
       = inr (audiostream_map self)
    /\ (fallback_default self = true <-> audiostream_map self = Dict.empty)
    /\ _calculate_required_input_channels (audiostream_map self)
       = inr (required_input_channels self)
    /\ In (required_input_channels self) tiers
    /\ NoDup (Dict.keys (audiostream_map self))
    /\ (forall i, In i (Dict.keys (audiostream_map self)) ->
                  0 <= i < Config.mix_audiostreams cfg)
    /\ (forall i v, In (i, v) (Dict.items (audiostream_map self)) ->
                    exists p, _parse_audiostream_mapping v = inr p).
Proof.
  intros cfg d name_ ha hv w w' self H.
  destruct (init_cases cfg d name_ ha hv w)
    as [(i & _ & _ & Hi)
       |[Hall [(i & v & _ & _ & Hi)|[(sm & _ & _ & Hi)
                                    |(sm & t & p & Hs & Ht & Hp & Hi)]]]];
    rewrite Hi in H; inversion H; subst; clear H.
  destruct (configured_map_keys cfg ("source." ++ name_)) as [Hnd Hpos].
  split; [reflexivity|]. split; [reflexivity|]. split; [reflexivity|].
  split; [apply parse_audiostream_map_total|].
  split.
  { change (fallback_default (configured_source cfg d name_ ha hv t))
      with (Dict.len (configured_map cfg ("source." ++ name_)) =? 0).
    change (audiostream_map (configured_source cfg d name_ ha hv t))
      with (configured_map cfg ("source." ++ name_)).
    unfold Dict.len, Dict.empty.
    destruct (configured_map cfg ("source." ++ name_)) as [|e m].
    - split; reflexivity.
    - split; [|discriminate]. intros H0. apply Z.eqb_eq in H0.
      simpl List.length in H0. lia. }
  split; [exact Ht|].
  split.
  { change (required_input_channels (configured_source cfg d name_ ha hv t))
      with t.
    unfold _calculate_required_input_channels in Ht.
    destruct (required_loop _ 0) as [e|c]; simpl in Ht; [discriminate|].
    apply (round_decklink_channels_ok c t Ht). }
  split; [exact Hnd|].
  split.
  { intros i Hi'. split; [apply (Hpos i Hi') | apply (Hall i Hi')]. }
  intros i v Hin. apply (stream_mapping_readable _ _ Hs i v Hin).
Qed.

Lemma constructed_source_invariants_witness :
  exists self,
    fst (__init__
           {| Config.sections :=
                [("source.cam", [("audiostream[0]", "9")])];
              Config.mix_audiostreams := 1 |} None "cam" true true [])
    = inr self
    /\ In (required_input_channels self) tiers.
Proof.
  eexists. split; [lazy; reflexivity|].
  eapply (constructed_source_invariants
            {| Config.sections :=
                 [("source.cam", [("audiostream[0]", "9")])];
               Config.mix_audiostreams := 1 |} None "cam" true true []).
  lazy. reflexivity.
Defined.

(** The exception of [__init__], if any, is that of the bounds check
    or, when that passes, that of the planner. *)
Lemma init_error_iff cfg d name_ ha hv w e :
  fst (__init__ cfg d name_ ha hv w) = inl e
  <-> (let m := configured_map cfg ("source." ++ name_) in
       _warn_incorrect_number_of_streams cfg m = inl e
       \/ (_warn_incorrect_number_of_streams cfg m = inr tt
           /\ _calculate_required_input_channels m = inl e)).
Proof.
  cbv zeta.
  destruct (_warn_incorrect_number_of_streams cfg
              (configured_map cfg ("source." ++ name_))) as [e'|[]] eqn:Hw.
  - rewrite init_unfold. cbv zeta. rewrite Hw. simpl.
    split; [intros H; left; inversion H; reflexivity|].
    intros [H|[H _]]; [inversion H; reflexivity | discriminate].
  - destruct (_calculate_required_input_channels
                (configured_map cfg ("source." ++ name_))) as [e'|t] eqn:Hc.
    + rewrite init_unfold. cbv zeta. rewrite Hw, Hc. simpl.
      split; [intros H; right; split; [reflexivity | inversion H; reflexivity]|].
      intros [H|[_ H]]; [discriminate | inversion H; reflexivity].
    + destruct (init_success cfg d name_ ha hv w t Hw Hc) as (p & _ & Hi).
      rewrite Hi. simpl.
      split; [discriminate | intros [H|[_ H]]; discriminate].
Qed.

(** X7.  Whether construction fails, and with which exception, depends
    on the configuration and the name only: not on [has_audio] or
    [has_video], so a source without audio is refused for a bad mapping
    all the same, nor on the deinterlacer or on what the engine was
    asked before. *)
Theorem validation_ignores_flags :
  forall (cfg : Config.t) (name_ : string)
         (d d' : option string) (ha ha' hv hv' : bool) (w w' : engine)
         (e : exn),
    fst (__init__ cfg d name_ ha hv w) = inl e
    <-> fst (__init__ cfg d' name_ ha' hv' w') = inl e.
Proof.
  intros. rewrite !init_error_iff. reflexivity.
Qed.

(** ** The description a constructed source hands to the engine *)

(** What a successful construction leaves behind. *)
Lemma constructed cfg d name_ ha hv w self w' :
  __init__ cfg d name_ ha hv w = (inr self, w') ->
  exists t sm,
    self = configured_source cfg d name_ ha hv t
    /\ (forall i, In i (Dict.keys (configured_map cfg ("source." ++ name_))) ->
                  i < Config.mix_audiostreams cfg)
    /\ stream_mapping (Dict.items (configured_map cfg ("source." ++ name_)))
       = inr sm
    /\ _calculate_required_input_channels
         (configured_map cfg ("source." ++ name_)) = inr t
    /\ launch_description self = inr (description self sm)
    /\ w' = List.app w [build_pipeline (description self sm)].
Proof.
  intros H.
  destruct (init_cases cfg d name_ ha hv w)
    as [(i & _ & _ & Hi)
       |[Hall [(i & v & _ & _ & Hi)|[(sm & _ & _ & Hi)
                                    |(sm & t & p & Hs & Ht & Hp & Hi)]]]];
    rewrite Hi in H; inversion H; subst; clear H.
  exists t, sm. split; [reflexivity|]. split; [exact Hall|].
  split; [exact Hs|]. split; [exact Ht|].
  pose proof (launch_description_spec
                (configured_source cfg d name_ ha hv t) sm Hs) as Hl.
  split; [exact Hl|].
  rewrite Hl in Hp. inversion Hp. reflexivity.
Qed.

(** X8.  After a successful construction [restart] can be called any
    number of times: it never raises, and each call stops the engine
    and hands it the description construction handed it. *)
Theorem restart_repeats_construction :
  forall (cfg : Config.t) (deinterlacer : option string) (name_ : string)
         (has_audio_ has_video_ : bool) (w w' : engine)
         (self : DeckLinkAVSource),
    __init__ cfg deinterlacer name_ has_audio_ has_video_ w = (inr self, w') ->
    exists p,
      w' = List.app w [build_pipeline p]
      /\ forall (n : nat) (w0 : engine),
           restarts n self w0
           = (inr tt,
              List.app w0
                (List.concat (repeat [set_state_NULL; build_pipeline p] n))).
Proof.
  intros cfg d name_ ha hv w w' self H.
  destruct (constructed _ _ _ _ _ _ _ _ H) as (t & sm & _ & _ & _ & _ & Hl & Hw).
  exists (description self sm). split; [exact Hw|].
  induction n as [|n IH]; intros w0; simpl.
  - unfold retM. now rewrite app_nil_r.
  - unfold bindM. rewrite (restart_unfold _ _ _ Hl), IH, <- app_assoc.
    reflexivity.
Qed.

Lemma restart_repeats_construction_witness :
  exists p,
    snd (__init__
           {| Config.sections := []; Config.mix_audiostreams := 1 |}
           None "cam" true false [])
    = [build_pipeline p]
    /\ forall (n : nat) (w0 : engine),
         restarts n
           (configured_source
              {| Config.sections := []; Config.mix_audiostreams := 1 |}
              None "cam" true false 2) w0
         = (inr tt,
            List.app w0
              (List.concat (repeat [set_state_NULL; build_pipeline p] n))).
Proof.
  destruct (restart_repeats_construction
              {| Config.sections := []; Config.mix_audiostreams := 1 |}
              None "cam" true false []
              (snd (__init__
                      {| Config.sections := []; Config.mix_audiostreams := 1 |}
                      None "cam" true false []))
              (configured_source
                 {| Config.sections := []; Config.mix_audiostreams := 1 |}
                 None "cam" true false 2) eq_refl) as (p & Hw & Hn).
  exists p. split; [exact Hw | exact Hn].
Defined.

(** X9.  A source whose section is absent from the configuration is
    constructed, whatever the number of enabled streams, with the
    defaults: device 0, both connections [auto], mode [1080i50], format
    [auto], the fallback flag set and two input channels. *)
Theorem absent_section_defaults :
  forall (cfg : Config.t) (deinterlacer : option string) (name_ : string)
         (has_audio_ has_video_ : bool) (w : engine),
    Config.section cfg ("source." ++ name_) = None ->
    exists self w',
      __init__ cfg deinterlacer name_ has_audio_ has_video_ w = (inr self, w')
      /\ device self = "0" /\ port self = "Decklink #0"
      /\ aconn self = "auto" /\ vconn self = "auto"
      /\ vmode self = "1080i50" /\ vfmt self = "auto"
      /\ audiostream_map self = Dict.empty
      /\ fallback_default self = true
      /\ required_input_channels self = 2
      /\ audio_channels self = 1.
Proof.
  intros cfg d name_ ha hv w Hsec.
  assert (Hm : configured_map cfg ("source." ++ name_) = [])
    by (unfold configured_map; rewrite Hsec; reflexivity).
  assert (Hw : _warn_incorrect_number_of_streams cfg
                 (configured_map cfg ("source." ++ name_)) = inr tt)
    by (rewrite Hm; reflexivity).
  assert (Hc : _calculate_required_input_channels
                 (configured_map cfg ("source." ++ name_)) = inr 2)
    by (rewrite Hm; reflexivity).
  destruct (init_success cfg d name_ ha hv w 2 Hw Hc) as (p & _ & Hi).
  eexists. eexists. split; [exact Hi|].
  assert (Hget : forall key fallback,
             Config.get cfg ("source." ++ name_) key fallback = fallback)
    by (intros; unfold Config.get; rewrite Hsec; reflexivity).
  unfold port, audio_channels.
  change (device (configured_source cfg d name_ ha hv 2))
    with (Config.get cfg ("source." ++ name_) "devicenumber" "0").
  change (aconn (configured_source cfg d name_ ha hv 2))
    with (Config.get cfg ("source." ++ name_) "audio_connection" "auto").
  change (vconn (configured_source cfg d name_ ha hv 2))
    with (Config.get cfg ("source." ++ name_) "video_connection" "auto").
  change (vmode (configured_source cfg d name_ ha hv 2))
    with (Config.get cfg ("source." ++ name_) "video_mode" "1080i50").
  change (vfmt (configured_source cfg d name_ ha hv 2))
    with (Config.get cfg ("source." ++ name_) "video_format" "auto").
  change (audiostream_map (configured_source cfg d name_ ha hv 2))
    with (configured_map cfg ("source." ++ name_)).
  change (fallback_default (configured_source cfg d name_ ha hv 2))
    with (Dict.len (configured_map cfg ("source." ++ name_)) =? 0).
  rewrite !Hget, Hm. repeat split; reflexivity.
Qed.

Lemma absent_section_defaults_witness :
  exists self w',
    __init__ {| Config.sections := [("mix", [("audiostreams", "0")])];
                Config.mix_audiostreams := 0 |} None "cam" true true []
    = (inr self, w')
    /\ port self = "Decklink #0" /\ fallback_default self = true.
Proof.
  destruct (absent_section_defaults
              {| Config.sections := [("mix", [("audiostreams", "0")])];
                 Config.mix_audiostreams := 0 |} None "cam" true true []
              eq_refl)
    as (self & w' & Hi & _ & Hp & _ & _ & _ & _ & _ & Hf & _).
  exists self, w'. auto.
Defined.

(** ** Names in the description *)

Lemma element_names_app p q :
  element_names (p ++ q) = (element_names p ++ element_names q)%list.
Proof. unfold element_names. now rewrite concat_app, flat_map_app. Qed.

Lemma element_names_cons c p :
  element_names (c :: p) = (element_names [c] ++ element_names p)%list.
Proof. exact (element_names_app [c] p). Qed.

Lemma element_names_video self :
  element_names [video_chain self]
  = if has_video self then ["vout-" ++ name self] else [].
Proof. unfold video_chain. destruct (has_video self); reflexivity. Qed.

Lemma element_names_audio self :
  element_names [audio_chain self] = ["aout-" ++ name self].
Proof.
  unfold audio_chain.
  destruct (required_input_channels self >? 2), (fallback_default self);
    reflexivity.
Qed.

Lemma element_names_rules name_ rules :
  element_names (List.concat (map (emitted name_) rules))
  = flat_map (fun r => element_names (emitted name_ r)) rules.
Proof.
  induction rules as [|r rules IH]; simpl; [reflexivity|].
  now rewrite element_names_app, IH.
Qed.

(** A name a rule gives begins with [i], [t] or [q]. *)
Lemma rule_name_head name_ r x :
  In x (element_names (emitted name_ r)) ->
  exists s, x = String "i" s \/ x = String "t" s \/ x = String "q" s.
Proof.
  destruct r; simpl; intros H;
    repeat (destruct H as [<-|H]; [eexists; eauto|]); destruct H.
Qed.

Ltac split_in H :=
  repeat match type of H with
         | _ \/ _ => destruct H as [H|H]
         | False => destruct H
         end.

(** A name is given by the rule of one stream only. *)
Lemma rule_name_index name_ r1 r2 x :
  In x (element_names (emitted name_ r1)) ->
  In x (element_names (emitted name_ r2)) ->
  rule_index r1 = rule_index r2.
Proof.
  assert (Hi : forall s1 a b,
             s1 ++ name_ ++ "-" ++ Py.str a = s1 ++ name_ ++ "-" ++ Py.str b ->
             a = b).
  { intros s1 a b H. apply append_inj_l, append_inj_l in H.
    inversion H as [H']. now apply str_inj. }
  assert (Hq : forall side a b,
             "queue-decklink-audio-" ++ name_ ++ "-" ++ Py.str a ++ "-" ++ side
             = "queue-decklink-audio-" ++ name_ ++ "-" ++ Py.str b ++ "-" ++ side
             -> a = b).
  { intros side a b H. apply append_inj_l, append_inj_l in H.
    inversion H as [H']. apply append_inj_r in H'. now apply str_inj. }
  assert (Hlr : forall a b,
             "queue-decklink-audio-" ++ name_ ++ "-" ++ Py.str a ++ "-" ++ "left"
             = "queue-decklink-audio-" ++ name_ ++ "-" ++ Py.str b ++ "-" ++ "right"
             -> False).
  { intros a b H. apply append_inj_l, append_inj_l in H.
    inversion H as [H']. now apply left_is_not_right in H'. }
  destruct r1 as [a l1 r1|a c1], r2 as [b l2 r2|b c2]; simpl; intros H1 H2;
    split_in H1; split_in H2; rewrite <- H1 in H2; clear H1;
    try discriminate H2;
    try (apply (Hi "i-") in H2; congruence);
    try (apply (Hi "t-") in H2; congruence);
    try (apply (Hq "left") in H2; congruence);
    try (apply (Hq "right") in H2; congruence);
    try (apply Hlr in H2; contradiction);
    try (symmetry in H2; apply Hlr in H2; contradiction).
Qed.

Lemma rule_names_NoDup name_ r : NoDup (element_names (emitted name_ r)).
Proof.
  assert (Hlr : forall a,
             "queue-decklink-audio-" ++ name_ ++ "-" ++ Py.str a ++ "-" ++ "left"
             <> "queue-decklink-audio-" ++ name_ ++ "-" ++ Py.str a ++ "-" ++ "right").
  { intros a H. apply append_inj_l, append_inj_l in H.
    inversion H as [H']. now apply left_is_not_right in H'. }
  destruct r as [a l r|a c]; simpl.
  - constructor; [simpl; intros [H|[H|[]]]; discriminate|].
    constructor; [simpl; intros [H|[]]; symmetry in H; now apply Hlr in H|].
    constructor; [intros []|constructor].
  - constructor; [simpl; intros [H|[H|[H|[]]]]; discriminate|].
    constructor; [simpl; intros [H|[H|[]]]; discriminate|].
    constructor; [simpl; intros [H|[]]; symmetry in H; now apply Hlr in H|].
    constructor; [intros []|constructor].
Qed.

Lemma rules_names_NoDup name_ rules :
  NoDup (map rule_index rules) ->
  NoDup (flat_map (fun r => element_names (emitted name_ r)) rules).
Proof.
  induction rules as [|r rules IH]; simpl; intros H; [constructor|].
  inversion H as [|? ? Hn Hd]; subst.
  apply NoDup_app; [apply rule_names_NoDup | now apply IH|].
  intros x Hx Hin. apply in_flat_map in Hin. destruct Hin as (r' & Hr' & Hx').
  apply Hn. rewrite (rule_name_index _ _ _ _ Hx Hx').
  now apply in_map.
Qed.

Lemma rule_index_of sm : map rule_index (map rule_of sm) = map fst sm.
Proof.
  induction sm as [|[i [c|l r]] sm IH]; simpl; [reflexivity| |]; now rewrite IH.
Qed.

Lemma description_names self sm :
  element_names (description self sm)
  = List.app
      (if has_video self then ["vout-" ++ name self] else [])
      (if has_audio self
       then ("aout-" ++ name self)
            :: flat_map (fun r => element_names (emitted (name self) r))
                 (map rule_of sm)
       else []).
Proof.
  unfold description. rewrite element_names_cons, element_names_video.
  f_equal. destruct (has_audio self); [|reflexivity].
  rewrite element_names_cons, element_names_audio, element_names_rules.
  reflexivity.
Qed.

Lemma rules_names_head name_ rules x :
  In x (flat_map (fun r => element_names (emitted name_ r)) rules) ->
  exists s, x = String "i" s \/ x = String "t" s \/ x = String "q" s.
Proof.
  intros H. apply in_flat_map in H. destruct H as (r & _ & Hx).
  apply (rule_name_head _ _ _ Hx).
Qed.

(** X10.  In the description a constructed source hands to the engine
    no two elements have the same name. *)
Theorem element_names_are_unique :
  forall (cfg : Config.t) (deinterlacer : option string) (name_ : string)
         (has_audio_ has_video_ : bool) (w w' : engine)
         (self : DeckLinkAVSource),
    __init__ cfg deinterlacer name_ has_audio_ has_video_ w = (inr self, w') ->
    exists p,
      w' = List.app w [build_pipeline p]
      /\ NoDup (element_names p).
Proof.
  intros cfg d name_ ha hv w w' self H.
  destruct (constructed _ _ _ _ _ _ _ _ H)
    as (t & sm & Hself & _ & Hs & _ & _ & Hw).
  exists (description self sm). split; [exact Hw|].
  rewrite description_names.
  assert (Hrules : NoDup (flat_map
                            (fun r => element_names (emitted (name self) r))
                            (map rule_of sm))).
  { apply rules_names_NoDup. rewrite rule_index_of.
    rewrite (stream_mapping_keys _ _ Hs).
    apply (configured_map_keys cfg ("source." ++ name_)). }
  assert (Haudio : NoDup (if has_audio self
                          then ("aout-" ++ name self)
                               :: flat_map
                                    (fun r => element_names
                                                (emitted (name self) r))
                                    (map rule_of sm)
                          else [])).
  { destruct (has_audio self); [|constructor].
    constructor; [|exact Hrules]. intros Hin.
    apply rules_names_head in Hin. destruct Hin as (s & [E|[E|E]]);
      discriminate E. }
  destruct (has_video self); [|exact Haudio].
  apply NoDup_app; [constructor; [intros []|constructor] | exact Haudio|].
  intros x [<-|[]] Hin. destruct (has_audio self); [|destruct Hin].
  destruct Hin as [E|Hin]; [discriminate E|].
  apply rules_names_head in Hin. destruct Hin as (s & [E|[E|E]]);
    discriminate E.
Qed.

Lemma element_names_are_unique_witness :
  exists p,
    snd (__init__
           {| Config.sections :=
                [("source.cam", [("audiostream[0]", "1");
                                 ("audiostream[1]", "2+3")])];
              Config.mix_audiostreams := 2 |} None "cam" true true [])
    = [build_pipeline p]
    /\ NoDup (element_names p).
Proof.
  eapply (element_names_are_unique
            {| Config.sections :=
                 [("source.cam", [("audiostream[0]", "1");
                                  ("audiostream[1]", "2+3")])];
               Config.mix_audiostreams := 2 |} None "cam" true true []).
  lazy. reflexivity.
Defined.

Lemma dict_mem_keys {V} (d : Dict.t V) k :
  Dict.mem k d = true <-> In k (Dict.keys d).
Proof.
  unfold Dict.mem, Dict.keys. induction d as [|[k0 v0] d IH]; simpl.
  - split; [discriminate | intros []].
  - destruct (Z.eqb_spec k0 k) as [->|Hne]; [tauto|].
    rewrite IH. split; [auto | intros [E|E]; [congruence | exact E]].
Qed.




(** ** Pads and elements of the description *)

Lemma pad_references_app p q :
  pad_references (p ++ q) = (pad_references p ++ pad_references q)%list.
Proof. unfold pad_references. now rewrite concat_app, flat_map_app. Qed.

Lemma pad_references_base self :
  pad_references [video_chain self] = []
  /\ pad_references [audio_chain self] = [].
Proof.
  unfold video_chain, audio_chain.
  destruct (has_video self), (fallback_default self),
    (required_input_channels self >? 2); split; reflexivity.
Qed.

Lemma pad_references_rules name_ sm pd :
  In ("aout-" ++ name_, pd)
     (pad_references (List.concat (map (emitted name_) (map rule_of sm)))) ->
  exists i m c, In (i, m) sm /\ In c (referenced m)
                /\ pd = "src_" ++ Py.str c.
Proof.
  induction sm as [|[i m] sm IH]; simpl; [intros []|].
  rewrite pad_references_app, in_app_iff. intros [H|H].
  - exists i, m. destruct m as [c|l r]; simpl in H; split_in H;
      inversion H; subst; eauto 8 using in_eq, in_cons.
  - destruct (IH H) as (i' & m' & c & Hin & Hc & Hpd).
    exists i', m', c. auto.
Qed.

Lemma referenced_below m t sm i cm c :
  _calculate_required_input_channels m = inr t ->
  stream_mapping (Dict.items m) = inr sm ->
  In (i, cm) sm -> In c (referenced cm) -> c < t.
Proof.
  intros Ht Hs Hin Hc. rewrite (calculate_required_unfold _ _ Hs) in Ht.
  apply round_decklink_channels_ok in Ht. destruct Ht as [Hle _].
  pose proof (referenced_le_entry_max _ _ Hc).
  pose proof (maxReferenced_bound _ _ _ Hin). lia.
Qed.

(** X12.  In the description a constructed source hands to the engine,
    every pad of the capture element [aout-<name>] that is referred to
    is the source pad of a channel below the number of input channels
    the source requires. *)
Theorem raw_pads_below_channel_count :
  forall (cfg : Config.t) (deinterlacer : option string) (name_ : string)
         (has_audio_ has_video_ : bool) (w w' : engine)
         (self : DeckLinkAVSource),
    __init__ cfg deinterlacer name_ has_audio_ has_video_ w = (inr self, w') ->
    exists p,
      w' = List.app w [build_pipeline p]
      /\ forall pd,
           In ("aout-" ++ name_, pd) (pad_references p) ->
           exists c, pd = "src_" ++ Py.str c
                     /\ c < required_input_channels self.
Proof.
  intros cfg d name_ ha hv w w' self H.
  destruct (constructed _ _ _ _ _ _ _ _ H)
    as (t & sm & Hself & _ & Hs & Ht & _ & Hw).
  exists (description self sm). split; [exact Hw|].
  assert (Hn : name self = name_) by (rewrite Hself; reflexivity).
  assert (Hr : required_input_channels self = t)
    by (rewrite Hself; reflexivity).
  intros pd Hin. unfold description in Hin.
  change (video_chain self :: ?l) with ([video_chain self] ++ l)%list in Hin.
  rewrite pad_references_app, (proj1 (pad_references_base self)) in Hin.
  simpl in Hin. destruct (has_audio self); [|destruct Hin].
  change (audio_chain self :: ?l) with ([audio_chain self] ++ l)%list in Hin.
  rewrite pad_references_app, (proj2 (pad_references_base self)) in Hin.
  simpl in Hin. rewrite Hn in Hin.
  destruct (pad_references_rules _ _ _ Hin) as (i & m & c & Hm & Hc & ->).
  exists c. split; [reflexivity|]. rewrite Hr.
  apply (referenced_below _ _ _ _ _ _ Ht Hs Hm Hc).
Qed.

Lemma raw_pads_below_channel_count_witness :
  exists p,
    snd (__init__
           {| Config.sections :=
                [("source.cam", [("audiostream[0]", "6+7")])];
              Config.mix_audiostreams := 1 |} None "cam" true false [])
    = [build_pipeline p]
    /\ forall pd,
         In ("aout-cam", pd) (pad_references p) ->
         exists c, pd = "src_" ++ Py.str c /\ c < 8.
Proof.
  eapply (raw_pads_below_channel_count
            {| Config.sections :=
                 [("source.cam", [("audiostream[0]", "6+7")])];
               Config.mix_audiostreams := 1 |} None "cam" true false []
            _
            (configured_source
               {| Config.sections :=
                    [("source.cam", [("audiostream[0]", "6+7")])];
                  Config.mix_audiostreams := 1 |} None "cam" true false 8)).
  reflexivity.
Defined.

Lemma count_rules name_ sm :
  let p := List.concat (map (emitted name_) (map rule_of sm)) in
  count_factory "interleave" p = List.length sm
  /\ count_factory "queue" p = (2 * List.length sm)%nat
  /\ count_factory "tee" p = singles sm
  /\ count_factory "deinterleave" p = 0%nat
  /\ count_factory "decklinkaudiosrc" p = 0%nat
  /\ count_factory "decklinkvideosrc" p = 0%nat.
Proof.
  induction sm as [|[i m] sm IH]; simpl.
  - repeat split.
  - destruct IH as (H1 & H2 & H3 & H4 & H5 & H6).
    rewrite !count_factory_app, H1, H2, H3, H4, H5, H6.
    unfold singles. destruct m; simpl; repeat split; lia.
Qed.

Lemma count_audio_chain self :
  count_factory "interleave" [audio_chain self] = 0%nat
  /\ count_factory "queue" [audio_chain self] = 0%nat
  /\ count_factory "tee" [audio_chain self] = 0%nat
  /\ count_factory "deinterleave" [audio_chain self]
     = (if fallback_default self then 0 else 1)%nat
  /\ count_factory "decklinkaudiosrc" [audio_chain self] = 1%nat
  /\ count_factory "decklinkvideosrc" [audio_chain self] = 0%nat.
Proof.
  unfold audio_chain. destruct (fallback_default self); repeat split.
Qed.

(** X13.  The description a constructed source hands to the engine has
    one video capture element.  When the source has audio it has one
    audio capture element, one deinterleave unless the mapping is empty,
    one interleave and two queues per entry of the mapping and one tee
    per entry with a single channel; when the source has no audio it
    has none of these. *)
Theorem description_element_counts :
  forall (cfg : Config.t) (deinterlacer : option string) (name_ : string)
         (has_audio_ has_video_ : bool) (w w' : engine)
         (self : DeckLinkAVSource),
    __init__ cfg deinterlacer name_ has_audio_ has_video_ w = (inr self, w') ->
    exists p sm,
      w' = List.app w [build_pipeline p]
      /\ stream_mapping (Dict.items (audiostream_map self)) = inr sm
      /\ List.length sm = List.length (Dict.items (audiostream_map self))
      /\ count_factory "decklinkvideosrc" p = 1%nat
      /\ count_factory "decklinkaudiosrc" p
         = (if has_audio_ then 1 else 0)%nat
      /\ count_factory "deinterleave" p
         = (if has_audio_ && negb (fallback_default self) then 1 else 0)%nat
      /\ count_factory "interleave" p
         = (if has_audio_ then List.length sm else 0)%nat
      /\ count_factory "queue" p
         = (if has_audio_ then 2 * List.length sm else 0)%nat
      /\ count_factory "tee" p = (if has_audio_ then singles sm else 0)%nat.
Proof.
  intros cfg d name_ ha hv w w' self H.
  destruct (constructed _ _ _ _ _ _ _ _ H)
    as (t & sm & Hself & _ & Hs & _ & _ & Hw).
  exists (description self sm), sm. split; [exact Hw|].
  assert (Hha : has_audio self = ha) by (rewrite Hself; reflexivity).
  assert (Hmap : audiostream_map self
                 = configured_map cfg ("source." ++ name_))
    by (rewrite Hself; reflexivity).
  split; [rewrite Hmap; exact Hs|].
  split.
  { rewrite Hmap, <- (length_map fst sm), (stream_mapping_keys _ _ Hs).
    apply length_map. }
  unfold description. rewrite Hha.
  assert (Hv : count_factory "decklinkvideosrc" [video_chain self] = 1%nat)
    by (unfold video_chain; destruct (has_video self); reflexivity).
  pose proof (fun f => count_factory_video_chain f self) as Hvideo.
  destruct ha.
  - set (rules := List.concat (map (emitted (name self)) (map rule_of sm))).
    assert (Hcons : forall f,
               count_factory f (video_chain self :: audio_chain self :: rules)
               = (count_factory f [video_chain self]
                  + (count_factory f [audio_chain self]
                     + count_factory f rules))%nat).
    { intros f.
      rewrite (count_factory_cons f (video_chain self) (audio_chain self :: rules)).
      rewrite (count_factory_cons f (audio_chain self) rules). reflexivity. }
    rewrite !Hcons, Hv, !Hvideo by discriminate. subst rules.
    destruct (count_audio_chain self) as (A1 & A2 & A3 & A4 & A5 & A6).
    destruct (count_rules (name self) sm) as (R1 & R2 & R3 & R4 & R5 & R6).
    rewrite A1, A2, A3, A4, A5, A6, R1, R2, R3, R4, R5, R6.
    destruct (fallback_default self); simpl; repeat split; lia.
  - assert (Hone : forall f,
               count_factory f [video_chain self]
               = (count_factory f [video_chain self] + 0)%nat)
      by (intros f; lia).
    rewrite Hv. repeat split; rewrite Hone, Hvideo by discriminate;
      reflexivity.
Qed.

Lemma description_element_counts_witness :
  exists p sm,
    snd (__init__
           {| Config.sections :=
                [("source.cam", [("audiostream[0]", "1");
                                 ("audiostream[1]", "2+3")])];
              Config.mix_audiostreams := 2 |} None "cam" true true [])
    = [build_pipeline p]
    /\ List.length sm = 2%nat
    /\ count_factory "interleave" p = List.length sm
    /\ count_factory "tee" p = singles sm.
Proof.
  destruct (description_element_counts
              {| Config.sections :=
                   [("source.cam", [("audiostream[0]", "1");
                                    ("audiostream[1]", "2+3")])];
                 Config.mix_audiostreams := 2 |} None "cam" true true []
              (snd (__init__
                      {| Config.sections :=
                           [("source.cam", [("audiostream[0]", "1");
                                            ("audiostream[1]", "2+3")])];
                         Config.mix_audiostreams := 2 |}
                      None "cam" true true []))
              (configured_source
                 {| Config.sections :=
                      [("source.cam", [("audiostream[0]", "1");
                                       ("audiostream[1]", "2+3")])];
                    Config.mix_audiostreams := 2 |} None "cam" true true 8)
              eq_refl)
    as (p & sm & Hw & _ & Hlen & _ & _ & _ & Hi & _ & Ht).
  exists p, sm. split; [exact Hw|]. split; [exact Hlen|]. auto.
Defined.

(** X14.  The streams for which a constructed source gives out an audio
    port are stream 0 alone when the mapping is empty and the indices
    of the mapping otherwise; there are as many of them as
    [audio_channels] says. *)
Theorem audio_channels_counts_ports :
  forall (cfg : Config.t) (deinterlacer : option string) (name_ : string)
         (has_audio_ has_video_ : bool) (w w' : engine)
         (self : DeckLinkAVSource),
    __init__ cfg deinterlacer name_ has_audio_ has_video_ w = (inr self, w') ->
    let streams :=
      match audiostream_map self with
      | [] => [0]
      | _ => Dict.keys (audiostream_map self)
      end in
    NoDup streams
    /\ Z.of_nat (List.length streams) = audio_channels self
    /\ forall a,
         (exists port, build_audioport self a = Some port) <-> In a streams.
Proof.
  intros cfg d name_ ha hv w w' self H streams.
  destruct (constructed _ _ _ _ _ _ _ _ H) as (t & sm & Hself & _).
  assert (Hmap : audiostream_map self
                 = configured_map cfg ("source." ++ name_))
    by (rewrite Hself; reflexivity).
  assert (Hfb : fallback_default self
                = (Dict.len (audiostream_map self) =? 0))
    by (rewrite Hself; reflexivity).
  pose proof (proj1 (configured_map_keys cfg ("source." ++ name_))) as Hnd.
  rewrite <- Hmap in Hnd.
  unfold audio_channels, build_audioport. rewrite Hfb. subst streams.
  unfold Dict.len.
  destruct (audiostream_map self) as [|e m] eqn:Hm.
  - simpl. split; [constructor; [intros []|constructor]|].
    split; [reflexivity|]. intros a.
    destruct (Z.eqb_spec a 0) as [->|Hne]; simpl.
    + split; [auto | eauto].
    + split; [intros [port Hp]; discriminate | intros [E|[]]; congruence].
  - split; [exact Hnd|].
    replace (Z.of_nat (List.length (e :: m)) =? 0) with false
      by (symmetry; apply Z.eqb_neq; simpl List.length; lia).
    split; [unfold Dict.keys; now rewrite length_map|].
    intros a. simpl andb. cbv iota.
    rewrite <- (dict_mem_keys (e :: m) a).
    destruct (Dict.mem a (e :: m)); split; eauto; try discriminate.
    intros [port Hp]. discriminate.
Qed.

Lemma audio_channels_counts_ports_witness :
  NoDup [1]
  /\ Z.of_nat (List.length [1])
     = audio_channels
         (configured_source
            {| Config.sections :=
                 [("source.cam", [("audiostream[1]", "0")])];
               Config.mix_audiostreams := 2 |} None "cam" true true 2)
  /\ forall a,
       (exists port,
          build_audioport
            (configured_source
               {| Config.sections :=
                    [("source.cam", [("audiostream[1]", "0")])];
                  Config.mix_audiostreams := 2 |} None "cam" true true 2) a
          = Some port)
       <-> In a [1].
Proof.
  apply (audio_channels_counts_ports
           {| Config.sections :=
                [("source.cam", [("audiostream[1]", "0")])];
              Config.mix_audiostreams := 2 |} None "cam" true true []
           (snd (__init__
                   {| Config.sections :=
                        [("source.cam", [("audiostream[1]", "0")])];
                      Config.mix_audiostreams := 2 |}
                   None "cam" true true []))
           (configured_source
              {| Config.sections :=
                   [("source.cam", [("audiostream[1]", "0")])];
                 Config.mix_audiostreams := 2 |} None "cam" true true 2)
           eq_refl).
Defined.

Lemma property_of_app f key p q :
  property_of f key (p ++ q)
  = (property_of f key p ++ property_of f key q)%list.
Proof. unfold property_of. now rewrite concat_app, flat_map_app. Qed.

(** X15.  The audio capture element of a constructed source is told its
    number of channels only when that number is 8 or 16; when two
    channels suffice it carries no [channels] property at all. *)
Theorem channels_property_only_above_two :
  forall (cfg : Config.t) (deinterlacer : option string) (name_ : string)
         (has_video_ : bool) (w w' : engine) (self : DeckLinkAVSource),
    __init__ cfg deinterlacer name_ true has_video_ w = (inr self, w') ->
    exists p,
      w' = List.app w [build_pipeline p]
      /\ ((required_input_channels self = 2
           /\ property_of "decklinkaudiosrc" "channels" p = [None])
          \/ (required_input_channels self = 8
              /\ property_of "decklinkaudiosrc" "channels" p = [Some "8"])
          \/ (required_input_channels self = 16
              /\ property_of "decklinkaudiosrc" "channels" p = [Some "16"])).
Proof.
  intros cfg d name_ hv w w' self H.
  destruct (constructed _ _ _ _ _ _ _ _ H)
    as (t & sm & Hself & _ & Hs & Ht & _ & Hw).
  exists (description self sm). split; [exact Hw|].
  assert (Hr : required_input_channels self = t)
    by (rewrite Hself; reflexivity).
  assert (Hha : has_audio self = true) by (rewrite Hself; reflexivity).
  assert (Htier : In t tiers).
  { unfold _calculate_required_input_channels in Ht.
    destruct (required_loop _ 0) as [e|c]; simpl in Ht; [discriminate|].
    apply (round_decklink_channels_ok c t Ht). }
  assert (Hrules : forall rules,
             property_of "decklinkaudiosrc" "channels"
               (List.concat (map (emitted (name self)) rules)) = []).
  { induction rules as [|r rules IH]; [reflexivity|].
    simpl map. simpl List.concat. rewrite property_of_app, IH.
    destruct r; reflexivity. }
  assert (Hp : property_of "decklinkaudiosrc" "channels" (description self sm)
               = [if t >? 2 then Some (Py.str t) else None]).
  { unfold description. rewrite Hha.
    change (video_chain self :: audio_chain self :: ?l)
      with ([video_chain self] ++ [audio_chain self] ++ l)%list.
    rewrite !property_of_app, Hrules.
    unfold video_chain, audio_chain. rewrite Hr.
    destruct (has_video self), (fallback_default self), (t >? 2);
      reflexivity. }
  rewrite Hp, Hr.
  destruct Htier as [<-|[<-|[<-|[]]]]; simpl; auto.
Qed.

Lemma channels_property_only_above_two_witness :
  exists p,
    snd (__init__
           {| Config.sections :=
                [("source.cam", [("audiostream[0]", "9")])];
              Config.mix_audiostreams := 1 |} None "cam" true true [])
    = [build_pipeline p]
    /\ property_of "decklinkaudiosrc" "channels" p = [Some "16"].
Proof.
  destruct (channels_property_only_above_two
              {| Config.sections :=
                   [("source.cam", [("audiostream[0]", "9")])];
                 Config.mix_audiostreams := 1 |} None "cam" true []
              (snd (__init__
                      {| Config.sections :=
                           [("source.cam", [("audiostream[0]", "9")])];
                         Config.mix_audiostreams := 1 |}
                      None "cam" true true []))
              (configured_source
                 {| Config.sections :=
                      [("source.cam", [("audiostream[0]", "9")])];
                    Config.mix_audiostreams := 1 |} None "cam" true true 16)
              eq_refl) as (p & Hw & [[Hr _]|[[Hr _]|[_ Hp]]]).
  - discriminate Hr.
  - discriminate Hr.
  - exists p. split; [exact Hw | exact Hp].
Defined.
